(** * PickIt: the session logic of [src/src/PickItApp.jsx]

    A shallow embedding of the handlers of the [App] component
    ([createSession], [joinSession], [submitPreference], [startVoting],
    [endVoting], the [onVote] callback) and of [generateSessionId], over an
    explicit model of the three Firestore collections they write
    ([sessions], [participants], [votes]) and of the React state they read. *)

From Stdlib Require Import ZArith NArith QArith List String Ascii Bool Lia.
From Stdlib Require Import Permutation Sorted.
From stdpp Require Import base strings gmap list fin_maps.
Import ListNotations.

Local Open Scope Z_scope.

(** ** JavaScript library behaviour the handlers rely on *)

Module JS.

(** *** Exceptions and results *)

(** What a handler can throw: a [TypeError] (reading a property of
    [undefined]) or a rejected Firestore call. *)
Inductive exn :=
| TypeError
| InvalidArgument   (* Firestore: an [undefined] field value, a bad path *)
| NotFound.         (* Firestore: [updateDoc] on a missing document *)

Inductive res (A : Type) :=
| Ok (a : A)
| Throw (e : exn).
Arguments Ok {A} a.
Arguments Throw {A} e.

Definition bind {A B} (r : res A) (k : A -> res B) : res B :=
  match r with
  | Ok a => k a
  | Throw e => Throw e
  end.

(** *** Strings *)

(** [!s] for a string: only the empty string is falsy. *)
Definition falsy (s : string) : bool :=
  match s with
  | EmptyString => true
  | String _ _ => false
  end.

(** A string state cell inside a template literal: [null] prints as
    ["null"]. *)
Definition interpolate (x : option string) : string :=
  match x with
  | Some s => s
  | None => "null"
  end.

(** [s.substring(i, j)] for [i <= j]: the code units [i .. j-1], clamped
    to the length of [s]. *)
Definition substring (i j : nat) (s : string) : string :=
  String.substring i (j - i) s.

(** [toUpperCase] on one code unit; exact on ASCII, which is all that
    [toString(36)] produces. *)
Definition upper (a : ascii) : ascii :=
  let n := N_of_ascii a in
  if ((97 <=? n) && (n <=? 122))%N then ascii_of_N (n - 32) else a.

Fixpoint toUpperCase (s : string) : string :=
  match s with
  | EmptyString => EmptyString
  | String a s' => String (upper a) (toUpperCase s')
  end.

(** *** Property keys *)

Definition digit_value (a : ascii) : option N :=
  let n := N_of_ascii a in
  if ((48 <=? n) && (n <=? 57))%N then Some (n - 48)%N else None.

Fixpoint decimal (acc : N) (s : string) : option N :=
  match s with
  | EmptyString => Some acc
  | String a s' =>
      match digit_value a with
      | Some d => decimal (10 * acc + d)%N s'
      | None => None
      end
  end.

(** A property key is an _array index_ when it is the canonical decimal
    form of an integer below [2^32 - 1] (ECMAScript, 6.1.7). *)
Definition array_index (k : string) : option N :=
  match k with
  | EmptyString => None
  | String a rest =>
      if (N_of_ascii a =? 48)%N && negb (falsy rest) then None
      else match decimal 0 k with
           | Some n => if (n <? 2 ^ 32 - 1)%N then Some n else None
           | None => None
           end
  end.

Definition is_index (k : string) : bool :=
  match array_index k with Some _ => true | None => false end.

(** The string-keyed members every object literal inherits from
    [Object.prototype]. *)
Definition Object_prototype : list string :=
  [ "constructor"; "__defineGetter__"; "__defineSetter__"; "hasOwnProperty";
    "__lookupGetter__"; "__lookupSetter__"; "isPrototypeOf";
    "propertyIsEnumerable"; "toString"; "valueOf"; "__proto__";
    "toLocaleString" ].

Definition inherited (k : string) : bool :=
  existsb (String.eqb k) Object_prototype.

(** *** Own properties of an object used as a dictionary *)

Section Object.
Context {V : Type}.

(** Own enumerable properties, in the order they were created. *)
Definition object := list (string * V).

Fixpoint get (k : string) (o : object) : option V :=
  match o with
  | [] => None
  | (k', v) :: o' => if String.eqb k k' then Some v else get k o'
  end.

(** [o[k] = v]: overwrite in place, or create the property last. *)
Fixpoint set (k : string) (v : V) (o : object) : object :=
  match o with
  | [] => [(k, v)]
  | (k', v') :: o' =>
      if String.eqb k k' then (k', v) :: o' else (k', v') :: set k v o'
  end.

(** Insertion of an array-index property into a list kept in ascending
    index order. *)
Fixpoint place (n : N) (e : string * V) (l : list (N * (string * V)))
  : list (N * (string * V)) :=
  match l with
  | [] => [(n, e)]
  | (m, e') :: l' =>
      if (n <=? m)%N then (n, e) :: l else (m, e') :: place n e l'
  end.

Fixpoint indexed (o : object) : list (N * (string * V)) :=
  match o with
  | [] => []
  | (k, v) :: o' =>
      match array_index k with
      | Some n => place n (k, v) (indexed o')
      | None => indexed o'
      end
  end.

Definition named (o : object) : object :=
  List.filter (fun e => negb (is_index (fst e))) o.

(** [Object.entries(o)]: array-index keys first, in ascending numeric
    order, then the other keys in creation order
    (OrdinaryOwnPropertyKeys). *)
Definition entries (o : object) : list (string * V) :=
  List.map snd (indexed o) ++ named o.
End Object.
Arguments object V : clear implicits.

End JS.

Import JS.

#[global] Instance res_bind : MBind JS.res := fun A B k r => JS.bind r k.

(** ** Data model: the documents the app stores *)

Module Candidate.
(** A restaurant as [fetchYelpRestaurants] maps it, or as listed in
    [MOCK_RESTAURANTS]. *)
Record t := mk {
  id : string;
  name : string;
  image : string;
  rating : Q;
  reviewCount : N;
  price : string;
  cuisine : string;
  address : string
}.
End Candidate.

Inductive Status := open | voting | finished.

Module Session.
(** A document of the [sessions] collection ([createdAt], a server
    timestamp no handler reads, is left out). [winner] is absent until
    [endVoting] writes it. *)
Record t := mk {
  hostId : string;
  location : string;
  status : Status;
  candidates : list Candidate.t;
  winner : option Candidate.t
}.
End Session.

Module Participant.
Record t := mk {
  sessionId : string;
  userId : string;
  name : string;
  preference : string;
  isHost : bool
}.
End Participant.

Module Vote.
(** [sessionId] is the state cell of the voting client, [null] included. *)
Record t := mk {
  sessionId : option string;
  userId : string;
  restaurantId : string
}.
End Vote.

Definition MOCK_RESTAURANTS : list Candidate.t :=
  [ Candidate.mk "r1" "Che Butter Jonez (Mock)"
      "https://images.unsplash.com/photo-1568901346375-23c9450c58cd?auto=format&fit=crop&w=800&q=80"
      (48 # 10) 342 "$$" "Halal, Burgers, Seafood"
      "1602 Lavista Rd NE, Atlanta, GA 30329";
    Candidate.mk "r2" "NFA Burger - Dunwoody"
      "https://images.unsplash.com/photo-1550547660-d9450f859349?auto=format&fit=crop&w=800&q=80"
      (46 # 10) 890 "$$" "Burgers, American"
      "5465 Chamblee Dunwoody Rd, Dunwoody, GA 30338";
    Candidate.mk "r3" "Wheelhouse Craft Pub"
      "https://images.unsplash.com/photo-1514933651103-005eec06c04b?auto=format&fit=crop&w=800&q=80"
      (45 # 10) 210 "$$" "Pubs, Fish & Chips, Burgers"
      "1479 Scott Blvd, Decatur, GA 30030";
    Candidate.mk "r4" "Atlanta Breakfast Club"
      "https://images.unsplash.com/photo-1533089862017-ecc323f5194b?auto=format&fit=crop&w=800&q=80"
      (45 # 10) 3500 "$$" "Southern, Breakfast & Brunch"
      "249 Ivan Allen Jr Blvd, Atlanta, GA 30313";
    Candidate.mk "r5" "Whiskey Bird"
      "https://images.unsplash.com/photo-1559339352-11d035aa65de?auto=format&fit=crop&w=800&q=80"
      (44 # 10) 520 "$$" "Asian Fusion, Yakitori"
      "1409 North Highland Ave NE, Atlanta, GA 30306" ].

(** ** Tally and winner selection: the body of [endVoting] *)

(** A value of the [counts] object: a number, or the string that
    [(counts[k] || 0) + 1] yields once [counts[k]] found a member inherited
    from [Object.prototype] (a function or object, which [+ 1] turns into a
    string that is not numeric). *)
Inductive count :=
| Num (n : Z)
| Str.

(** [counts[k] = (counts[k] || 0) + 1]. The key ["__proto__"] is an accessor
    on [Object.prototype]: reading it yields an object, and its setter
    ignores the string assigned, so no own property appears. *)
Definition bump (counts : JS.object count) (k : string) : JS.object count :=
  match JS.get k counts with
  | Some (Num n) => JS.set k (Num ((if n =? 0 then 0 else n) + 1)) counts
  | Some Str => JS.set k Str counts
  | None =>
      if JS.inherited k
      then (if String.eqb k "__proto__" then counts else JS.set k Str counts)
      else JS.set k (Num (0 + 1)) counts
  end.

(** [votes.forEach(v => { counts[v.restaurantId] = ... })] from [{}]. *)
Definition tally (votes : list Vote.t) : JS.object count :=
  fold_left (fun counts v => bump counts (Vote.restaurantId v)) votes [].

(** One iteration of the [Object.entries(counts).forEach] loop over the
    pair [(winnerId, maxV)]; comparing a non-numeric string with a number
    is false. *)
Definition leader (acc : option string * Z) (e : string * count)
  : option string * Z :=
  match snd e with
  | Num c => if snd acc <? c then (Some (fst e), c) else acc
  | Str => acc
  end.

(** [sessionData.candidates[0].id]; [candidates[0]] is [undefined] on an
    empty list and reading [.id] from it throws. *)
Definition first_id (candidates : list Candidate.t) : res string :=
  match candidates with
  | [] => Throw TypeError
  | c :: _ => Ok (Candidate.id c)
  end.

(** The [winnerId] that [endVoting] computes. *)
Definition winnerId (candidates : list Candidate.t) (votes : list Vote.t)
  : res string :=
  match votes with
  | [] => first_id candidates
  | _ :: _ =>
      match fst (fold_left leader (JS.entries (tally votes)) (None, -1)) with
      | Some rid => if JS.falsy rid then first_id candidates else Ok rid
      | None => first_id candidates
      end
  end.

(** [candidates.find(c => c.id === winnerId) || candidates[0]];
    [None] stands for [undefined]. *)
Definition pick (candidates : list Candidate.t) (wid : string)
  : option Candidate.t :=
  match List.find (fun c => String.eqb (Candidate.id c) wid) candidates with
  | Some c => Some c
  | None => head candidates
  end.

(** The [winner] constant of [endVoting]. *)
Definition resolve (candidates : list Candidate.t) (votes : list Vote.t)
  : res (option Candidate.t) :=
  wid ← winnerId candidates votes;
  Ok (pick candidates wid).

(** ** Session codes *)

(** The Number that [Math.random()] returns, a binary fraction
    [mant / 2^expo] of the interval [0, 1). *)
Record unit_number := { mant : N; expo : N }.

Definition in_unit_interval (x : unit_number) : Prop :=
  (mant x < 2 ^ expo x)%N.

Definition digit36 (d : N) : ascii :=
  if (d <? 10)%N then ascii_of_N (48 + d) else ascii_of_N (87 + d).

(** The digits of [num / den] after the radix point, in base 36. *)
Fixpoint fraction36 (fuel : nat) (num den : N) : string :=
  match fuel with
  | O => EmptyString
  | S fuel' =>
      if (num =? 0)%N then EmptyString
      else String (digit36 (36 * num / den))
                  (fraction36 fuel' ((36 * num) mod den) den)
  end.

(** [x.toString(36)] for [x] in [0, 1): ["0"], or ["0."] and the base-36
    expansion of [x], which ends after at most [expo x] digits since 36 is
    even. An engine does not print all of these digits: it stops at the
    shortest string that reads back as the same double, so that the double
    nearest 5/9 prints as 0.k. The two agree on ["0"] for 0, on at least
    one digit after ["0."] for every other number, on 0.i for 1/2, and on
    the alphabet of the digits; the results on session codes use nothing
    else, and none says that a code is long. *)
Definition toString36 (x : unit_number) : string :=
  if (mant x =? 0)%N then "0"
  else "0." +:+ fraction36 (N.to_nat (expo x)) (mant x) (2 ^ expo x).

(** [Math.random().toString(36).substring(2, 8).toUpperCase()], with the
    random number as an argument. *)
Definition generateSessionId (random : unit_number) : string :=
  JS.toUpperCase (JS.substring 2 8 (toString36 random)).

(** ** The Firestore collections *)

Module Db.
(** Documents by document id, per collection (ids are taken to contain no
    ['/'], which would split a path segment). *)
Record t := mk {
  sessions : gmap string Session.t;
  participants : gmap string Participant.t;
  votes : gmap string Vote.t
}.

Definition empty : t := mk ∅ ∅ ∅.
End Db.

(** Document ids: [`${sid}_${uid}`] and [`${sessionId}_${uid}_${rid}`]. *)
Definition participantDocId (sid uid : string) : string :=
  sid +:+ "_" +:+ uid.

Definition voteDocId (sid uid rid : string) : string :=
  sid +:+ "_" +:+ uid +:+ "_" +:+ rid.

(** The result of the queries [where('sessionId', '==', sid)]. *)
Definition participantsOf (db : Db.t) (sid : string) : list Participant.t :=
  filter (fun p => Participant.sessionId p = sid)
         (map_to_list (Db.participants db)).*2.

Definition votesOf (db : Db.t) (sid : string) : list Vote.t :=
  filter (fun v => Vote.sessionId v = Some sid) (map_to_list (Db.votes db)).*2.

(** ** The React state of one client *)

Module View.
Inductive t := landing | join | lobby | loading | voting | winner.
End View.

Module App.
(** The [useState] cells of [App]. [user] holds [user.uid];
    [sessionData] is [{ id: sessionId, ...data }]. *)
Record state := mk {
  user : option string;
  view : View.t;
  sessionId : option string;
  sessionData : option (string * Session.t);
  participants : list Participant.t;
  votes : list Vote.t;
  loadingMsg : string;
  isStarting : bool;
  usingMock : bool
}.

Definition setView (v : View.t) (s : state) : state :=
  mk (user s) v (sessionId s) (sessionData s) (participants s) (votes s)
     (loadingMsg s) (isStarting s) (usingMock s).

Definition setSessionId (sid : option string) (s : state) : state :=
  mk (user s) (view s) sid (sessionData s) (participants s) (votes s)
     (loadingMsg s) (isStarting s) (usingMock s).

Definition setLoadingMsg (m : string) (s : state) : state :=
  mk (user s) (view s) (sessionId s) (sessionData s) (participants s)
     (votes s) m (isStarting s) (usingMock s).

Definition setIsStarting (b : bool) (s : state) : state :=
  mk (user s) (view s) (sessionId s) (sessionData s) (participants s)
     (votes s) (loadingMsg s) b (usingMock s).

Definition setUsingMock (b : bool) (s : state) : state :=
  mk (user s) (view s) (sessionId s) (sessionData s) (participants s)
     (votes s) (loadingMsg s) (isStarting s) b.

(** The guard [!user || !sessionId] passes: the uid and the (non-empty)
    session id. *)
Definition active (s : state) : option (string * string) :=
  match user s, sessionId s with
  | Some uid, Some sid => if JS.falsy sid then None else Some (uid, sid)
  | _, _ => None
  end.
End App.

(** ** The handlers of [App] *)

Section Handlers.
Import App.

(** [createSession(hostName, location)]. Both [setDoc] calls replace the
    document under their id; [doc(...)] rejects an empty last segment. *)
Definition createSession (random : unit_number) (hostName location : string)
    (s : state) (db : Db.t) : res (state * Db.t) :=
  match user s with
  | None => Ok (s, db)
  | Some uid =>
      let newSessionId := generateSessionId random in
      if JS.falsy newSessionId then Throw InvalidArgument
      else
        let session := Session.mk uid location open [] None in
        let host := Participant.mk newSessionId uid hostName "" true in
        let db' :=
          Db.mk (<[newSessionId := session]> (Db.sessions db))
                (<[participantDocId newSessionId uid := host]>
                   (Db.participants db))
                (Db.votes db) in
        Ok (setView View.lobby (setSessionId (Some newSessionId) s), db')
  end.

(** [joinSession(participantName, sid)]. *)
Definition joinSession (participantName sid : string)
    (s : state) (db : Db.t) : res (state * Db.t) :=
  match user s with
  | None => Ok (s, db)
  | Some uid =>
      let p := Participant.mk sid uid participantName "" false in
      let db' :=
        Db.mk (Db.sessions db)
              (<[participantDocId sid uid := p]> (Db.participants db))
              (Db.votes db) in
      Ok (setView View.lobby s, db')
  end.

(** [participants.find(p => p.userId === user.uid)]. *)
Definition currentPart (uid : string) (s : state) : option Participant.t :=
  List.find (fun p => String.eqb (Participant.userId p) uid) (participants s).

(** [x || 'User'] on an optional string. *)
Definition orUser (x : option string) : string :=
  match x with
  | Some n => if JS.falsy n then "User" else n
  | None => "User"
  end.

(** [submitPreference(prefText)]. The write names every field of the
    document, so [{ merge: true }] replaces them all. *)
Definition submitPreference (prefText : string)
    (s : state) (db : Db.t) : res (state * Db.t) :=
  match active s with
  | None => Ok (s, db)
  | Some (uid, sid) =>
      let cur := currentPart uid s in
      let p := Participant.mk sid uid
                 (orUser (Participant.name <$> cur))
                 prefText
                 (default false (Participant.isHost <$> cur)) in
      let db' :=
        Db.mk (Db.sessions db)
              (<[participantDocId sid uid := p]> (Db.participants db))
              (Db.votes db) in
      Ok (s, db')
  end.

(** [updateDoc] on a session document: fails when it does not exist. *)
Definition updateSession (sid : string) (f : Session.t -> Session.t)
    (db : Db.t) : res Db.t :=
  match Db.sessions db !! sid with
  | None => Throw NotFound
  | Some d =>
      Ok (Db.mk (<[sid := f d]> (Db.sessions db)) (Db.participants db)
                (Db.votes db))
  end.

(** The candidates [startVoting] stores: the search result when there is
    a non-empty one, else the first five of the shuffled mock list. *)
Definition selected (fetched : option (list Candidate.t))
    (shuffled : list Candidate.t) : list Candidate.t :=
  match fetched with
  | Some (c :: cs) => c :: cs
  | _ => firstn 5 shuffled
  end.

Definition fellBack (fetched : option (list Candidate.t)) : bool :=
  match fetched with
  | Some (_ :: _) => false
  | _ => true
  end.

(** [startVoting()]. [fetched] is what [fetchYelpRestaurants] resolves to
    ([None] for [null], which is all it gives while no API key is
    configured) and [shuffled] is the outcome of
    [[...MOCK_RESTAURANTS].sort(() => 0.5 - Math.random())]; the search
    term built from the preferences only feeds that external call.
    Reading [sessionData.location] throws when [sessionData] is [null].
    A search result is taken with every field of its restaurants defined:
    one whose [address] is [undefined] (Yelp giving neither [address1] nor
    [city]) makes [updateDoc] throw and is no value of [fetched]. *)
Definition startVoting (fetched : option (list Candidate.t))
    (shuffled : list Candidate.t) (s : state) (db : Db.t)
    : res (state * Db.t) :=
  match active s with
  | None => Ok (s, db)
  | Some (uid, sid) =>
      let s1 := setView View.loading
                  (setLoadingMsg "Consulting the Yelp gods..."
                     (setIsStarting true s)) in
      match sessionData s with
      | None => Throw TypeError
      | Some _ =>
          let s2 := setUsingMock (fellBack fetched) s1 in
          db' ← updateSession sid
                  (fun d => Session.mk (Session.hostId d) (Session.location d)
                              voting (selected fetched shuffled)
                              (Session.winner d))
                  db;
          Ok (setIsStarting false s2, db')
      end
  end.

(** [endVoting()]. Firestore rejects a write whose [winner] field is
    [undefined]. *)
Definition endVoting (s : state) (db : Db.t) : res (state * Db.t) :=
  match active s, sessionData s with
  | Some (uid, sid), Some (_, data) =>
      w ← resolve (Session.candidates data) (votes s);
      match w with
      | None => Throw InvalidArgument
      | Some winner =>
          db' ← updateSession sid
                  (fun d => Session.mk (Session.hostId d) (Session.location d)
                              finished (Session.candidates d) (Some winner))
                  db;
          Ok (s, db')
      end
  | _, _ => Ok (s, db)
  end.

(** The two outcomes of a vote toggle: the [setDoc] branch and the
    [deleteDoc] branch. *)
Inductive applied := added | removed.

(** [votes.find(v => v.userId === user.uid && v.restaurantId === rid)]. *)
Definition existing (uid rid : string) (s : state) : option Vote.t :=
  List.find (fun v => String.eqb (Vote.userId v) uid
                      && String.eqb (Vote.restaurantId v) rid) (votes s).

(** The [onVote] callback handed to [Voting]; [user.uid] throws when
    [user] is [null]. The callback returns nothing: the first component
    of the result records which branch ran. *)
Definition onVote (rid : string) (s : state) (db : Db.t)
    : res (applied * state * Db.t) :=
  match user s with
  | None => Throw TypeError
  | Some uid =>
      let docId := voteDocId (JS.interpolate (sessionId s)) uid rid in
      match existing uid rid s with
      | Some _ =>
          Ok (removed, s,
              Db.mk (Db.sessions db) (Db.participants db)
                    (delete docId (Db.votes db)))
      | None =>
          Ok (added, s,
              Db.mk (Db.sessions db) (Db.participants db)
                    (<[docId := Vote.mk (sessionId s) uid rid]> (Db.votes db)))
      end
  end.

(** What the views offer: the Lobby shows its start button, and the
    voting view its end button, to the client whose uid is the session's
    [hostId]; the start button is disabled while [isStarting] is set or no
    participant is listed. *)
Definition offersStartVoting (s : state) : bool :=
  match view s, sessionData s, user s with
  | View.lobby, Some (_, data), Some uid =>
      String.eqb (Session.hostId data) uid
      && negb (isStarting s)
      && negb (Nat.ltb (length (participants s)) 1)
  | _, _, _ => false
  end.

Definition offersEndVoting (s : state) : bool :=
  match view s, sessionData s, user s with
  | View.voting, Some (_, data), Some uid => String.eqb (Session.hostId data) uid
  | _, _, _ => false
  end.
End Handlers.

(** ** Snapshots and runs *)

(** The Data Sync effect once its three listeners have fired: the session
    document (kept as it was when there is none), the participants and
    the votes of the session, and the view following the status. It only
    subscribes when [sessionId] and [user] are set. *)
Definition sync (db : Db.t) (s : App.state) : App.state :=
  match App.active s with
  | None => s
  | Some (_, sid) =>
      let data := Db.sessions db !! sid in
      App.mk (App.user s)
        match Session.status <$> data with
        | Some voting => View.voting
        | Some finished => View.winner
        | _ => App.view s
        end
        (App.sessionId s)
        match data with
        | Some d => Some (sid, d)
        | None => App.sessionData s
        end
        (participantsOf db sid) (votesOf db sid)
        (App.loadingMsg s) (App.isStarting s) (App.usingMock s)
  end.

(** A client that has seen the current content of the store: its
    snapshots are those of [db] (the lists in any order); without a
    subscription they are as initialised. *)
Definition synced (s : App.state) (db : Db.t) : Prop :=
  match App.active s with
  | None =>
      App.sessionData s = None ∧ App.participants s = [] ∧ App.votes s = []
  | Some (_, sid) =>
      App.sessionData s = pair sid <$> Db.sessions db !! sid
      ∧ App.participants s ≡ₚ participantsOf db sid
      ∧ App.votes s ≡ₚ votesOf db sid
      ∧ match Session.status <$> Db.sessions db !! sid with
        | Some voting => App.view s = View.voting
        | Some finished => App.view s = View.winner
        | _ => True
        end
  end.

(** A client that has a uid and a session id and has received nothing
    yet. *)
Definition client (uid : string) (sid : option string) : App.state :=
  App.mk (Some uid) View.lobby sid None [] [] "" false false.

(** One invocation of a handler, with what it takes from outside: the
    random number, the search result, the shuffled mock list. *)
Inductive action :=
| CreateSession (random : unit_number) (hostName location : string)
| JoinSession (participantName sid : string)
| SubmitPreference (prefText : string)
| StartVoting (fetched : option (list Candidate.t)) (shuffled : list Candidate.t)
| EndVoting
| OnVote (rid : string).

Definition run (a : action) (s : App.state) (db : Db.t)
  : res (App.state * Db.t) :=
  match a with
  | CreateSession random hostName location =>
      createSession random hostName location s db
  | JoinSession participantName sid => joinSession participantName sid s db
  | SubmitPreference prefText => submitPreference prefText s db
  | StartVoting fetched shuffled => startVoting fetched shuffled s db
  | EndVoting => endVoting s db
  | OnVote rid => '(_, s', db') ← onVote rid s db; Ok (s', db')
  end.

(** The shuffle returns the mock restaurants in some order. *)
Definition admissible (a : action) : Prop :=
  match a with
  | StartVoting _ shuffled => shuffled ≡ₚ MOCK_RESTAURANTS
  | _ => True
  end.

(** A client whose snapshots lag behind the store. A handler works on
    the state cells of the render that created it, so what it reads is
    what each of the three listeners had delivered by then: the content of
    one of [stores], the store as it is or as it was earlier, and not
    necessarily the same one for the three listeners. Without a
    subscription the snapshots are as initialised. *)
Definition behind (s : App.state) (stores : list Db.t) : Prop :=
  match App.active s with
  | None =>
      App.sessionData s = None ∧ App.participants s = [] ∧ App.votes s = []
  | Some (_, sid) =>
      (∃ db, In db stores ∧ App.sessionData s = pair sid <$> Db.sessions db !! sid)
      ∧ (∃ db, In db stores ∧ App.participants s ≡ₚ participantsOf db sid)
      ∧ (∃ db, In db stores ∧ App.votes s ≡ₚ votesOf db sid)
  end.

(** [createSession] awaits its first [setDoc] before it issues the second.
    The store in between, given the stores before and after the whole
    handler: the session is written, the record of the host is not. *)
Definition sessionWritten (db db' : Db.t) : Db.t :=
  Db.mk (Db.sessions db') (Db.participants db) (Db.votes db).

(** The second [setDoc] of [createSession], on the store as it is by
    then. *)
Definition hostWritten (p : Participant.t) (db : Db.t) : Db.t :=
  Db.mk (Db.sessions db)
        (<[participantDocId (Participant.sessionId p) (Participant.userId p) := p]>
           (Db.participants db))
        (Db.votes db).

(** [trace stores waiting]: the stores the program has passed through
    from the empty store, the latest first, and the host records whose
    write is still awaited. A write takes effect on the store as it is
    when the handler issues it, whatever the handler has read before: the
    handler is run on the latest store by a client that may be [behind],
    which covers [startVoting] writing after its search and its timer.
    [createSession], the one handler with two writes, may also be taken
    apart, other writes coming between the two. A handler that throws
    writes nothing. *)
Inductive trace : list Db.t -> list Participant.t -> Prop :=
| trace_empty : trace [Db.empty] []
| trace_run db past waiting s a s' db' :
    trace (db :: past) waiting -> behind s (db :: past) -> admissible a ->
    run a s db = Ok (s', db') ->
    trace (db' :: db :: past) waiting
| trace_session db past waiting s uid random hostName location s' db' :
    trace (db :: past) waiting -> behind s (db :: past) ->
    App.user s = Some uid ->
    createSession random hostName location s db = Ok (s', db') ->
    trace (sessionWritten db db' :: db :: past)
          (Participant.mk (generateSessionId random) uid hostName "" true :: waiting)
| trace_host db past waiting waiting' p :
    trace (db :: past) (waiting ++ p :: waiting') ->
    trace (hostWritten p db :: db :: past) (waiting ++ waiting').

(** The stores the program reaches. *)
Definition reachable (db : Db.t) : Prop :=
  ∃ past waiting, trace (db :: past) waiting.

(** The position of a status in [open], [voting], [finished]. *)
Definition phase (st : Status) : Z :=
  match st with
  | open => 0
  | voting => 1
  | finished => 2
  end.

(** ** Vocabulary of the properties *)

(** The number of votes cast for a restaurant id. *)
Definition votesFor (rid : string) (votes : list Vote.t) : Z :=
  Z.of_nat (length (List.filter (fun v => String.eqb (Vote.restaurantId v) rid) votes)).

(** The restaurant ids voted for, each once, in the order of their first
    occurrence in the list of votes. *)
Fixpoint firstSeen (votes : list Vote.t) : list string :=
  match votes with
  | [] => []
  | v :: votes' =>
      Vote.restaurantId v
        :: List.filter (fun k => negb (String.eqb k (Vote.restaurantId v)))
             (firstSeen votes')
  end.

(** The order in which [Object.entries] lists the keys of the tally. *)
Definition tallyOrder (votes : list Vote.t) : list string :=
  List.map fst (JS.entries (tally votes)).

(** The order in which [Object.entries] lists keys created in the order
    [keys]. *)
Definition ownKeyOrder (keys : list string) : list string :=
  List.map fst (JS.entries (List.map (fun k => (k, tt)) keys)).

(** The integer an array-index key denotes (0 for any other key). *)
Definition indexValue (k : string) : N :=
  match JS.array_index k with
  | Some n => n
  | None => 0%N
  end.

(** [k] is the first key of [order] to reach the highest count: keys
    before it have fewer votes, keys after it no more. *)
Definition firstAtMax (order : list string) (votes : list Vote.t) (k : string)
  : Prop :=
  ∃ before after,
    order = before ++ k :: after
    ∧ (∀ k', In k' before -> votesFor k' votes < votesFor k votes)
    ∧ (∀ k', In k' after -> votesFor k' votes <= votesFor k votes).

(** A restaurant id that behaves as a plain dictionary key of [counts]:
    not empty (a falsy [winnerId]) and not the name of a member inherited
    from [Object.prototype]. *)
Definition plainKey (k : string) : Prop :=
  JS.falsy k = false ∧ JS.inherited k = false.

(** Every vote names a listed candidate. *)
Definition votesNameCandidates (candidates : list Candidate.t)
    (votes : list Vote.t) : Prop :=
  ∀ v, In v votes -> ∃ c, In c candidates ∧ Candidate.id c = Vote.restaurantId v.

(** Characters of a session code. *)
Definition upperAlnum (a : ascii) : bool :=
  let n := N_of_ascii a in
  ((48 <=? n) && (n <=? 57) || (65 <=? n) && (n <=? 90))%N.

(** Every character of the string passes the test. *)
Fixpoint allChars (test : ascii -> bool) (s : string) : bool :=
  match s with
  | EmptyString => true
  | String a s' => test a && allChars test s'
  end.

(** ['_'] does not occur in the string. *)
Fixpoint noUnderscore (s : string) : bool :=
  match s with
  | EmptyString => true
  | String a s' => negb (Ascii.eqb a "_") && noUnderscore s'
  end.

(** The session document a handler writes, and under which id:
    [createSession] a fresh open session, [startVoting] the candidates
    and the status [voting], [endVoting] the status [finished] and a
    winner listed in the session document as one of [stores] had it, the
    one in the snapshot of the client. *)
Inductive sessionWrite (stores : list Db.t) (db : Db.t)
  : action -> string -> Session.t -> Prop :=
| write_create random hostName location uid :
    sessionWrite stores db (CreateSession random hostName location)
      (generateSessionId random) (Session.mk uid location open [] None)
| write_start fetched shuffled sid d :
    Db.sessions db !! sid = Some d ->
    selected fetched shuffled ≠ [] ->
    sessionWrite stores db (StartVoting fetched shuffled) sid
      (Session.mk (Session.hostId d) (Session.location d) voting
         (selected fetched shuffled) (Session.winner d))
| write_end sid d w db0 d0 :
    Db.sessions db !! sid = Some d ->
    In db0 stores -> Db.sessions db0 !! sid = Some d0 ->
    In w (Session.candidates d0) ->
    sessionWrite stores db EndVoting sid
      (Session.mk (Session.hostId d) (Session.location d) finished
         (Session.candidates d) (Some w)).

(** The store after the client with this uid and session id, having seen
    the store, invokes a handler; unchanged when the handler throws. *)
Definition after (uid : string) (sid : option string) (a : action) (db : Db.t)
  : Db.t :=
  match run a (sync db (client uid sid)) db with
  | Ok (_, db') => db'
  | Throw _ => db
  end.


(** Documents are stored under the id their fields spell. *)
Definition wellKeyed (db : Db.t) : Prop :=
  (∀ k p, Db.participants db !! k = Some p ->
          k = participantDocId (Participant.sessionId p) (Participant.userId p))
  ∧ (∀ k v, Db.votes db !! k = Some v ->
            k = voteDocId (JS.interpolate (Vote.sessionId v)) (Vote.userId v)
                  (Vote.restaurantId v)).

(** What every session document of a store does satisfy, [past] being the
    stores before it: an open session has neither candidates nor winner,
    a voting session has candidates, and a finished session has a winner,
    which was a candidate of the session in an earlier store. *)
Definition sessionShape (past : list Db.t) (sid : string) (d : Session.t)
  : Prop :=
  (Session.status d = open ->
   Session.candidates d = [] ∧ Session.winner d = None)
  ∧ (Session.status d = voting -> Session.candidates d ≠ [])
  ∧ (Session.status d = finished ->
     ∃ w, Session.winner d = Some w
          ∧ ∃ db0 d0, In db0 past ∧ Db.sessions db0 !! sid = Some d0
                      ∧ In w (Session.candidates d0)).

(** Every stored vote carries a session id, and neither that id nor the
    user id contains an underscore. *)
Definition underscoreFree (db : Db.t) : Prop :=
  ∀ k v, Db.votes db !! k = Some v ->
         (∃ sid, Vote.sessionId v = Some sid ∧ noUnderscore sid = true)
         ∧ noUnderscore (Vote.userId v) = true.

(** A handler invoked where the app offers it: [startVoting] and
    [endVoting] through the button their view shows, [createSession] with
    a code no session has yet. *)
Definition asOffered (a : action) (s : App.state) (db : Db.t) : Prop :=
  match a with
  | CreateSession random _ _ => Db.sessions db !! generateSessionId random = None
  | StartVoting _ _ => offersStartVoting s = true
  | EndVoting => offersEndVoting s = true
  | _ => True
  end.

(** ** A sample run

    Alex ("h") opens a session and draws the code 41IOTI; Bo ("b") joins
    and asks for tacos; Alex starts the vote on the mock list; Bo votes
    for r3; Alex ends the vote. *)

Definition demo_random : unit_number := {| mant := 123456789123; expo := 40 |}.

Definition demo_open : Db.t :=
  after "h" None (CreateSession demo_random "Alex" "Atlanta, GA") Db.empty.

Definition demo_joined : Db.t :=
  after "b" (Some "41IOTI") (JoinSession "Bo" "41IOTI") demo_open.

Definition demo_lobby : Db.t :=
  after "b" (Some "41IOTI") (SubmitPreference "tacos") demo_joined.

Definition demo_voting : Db.t :=
  after "h" (Some "41IOTI") (StartVoting None MOCK_RESTAURANTS) demo_lobby.

Definition demo_voted : Db.t :=
  after "b" (Some "41IOTI") (OnVote "r3") demo_voting.

Definition demo_finished : Db.t :=
  after "h" (Some "41IOTI") EndVoting demo_voted.

(** A variant: the search returns two restaurants, with the ids "c" and
    "b_c", and a user whose uid is "a_b" votes for "c". *)

Definition found (id name : string) : Candidate.t :=
  Candidate.mk id name "" (45 # 10) 10 "$$" "Restaurant" "".

Definition search_voting : Db.t :=
  after "h" (Some "41IOTI")
    (StartVoting (Some [found "c" "Cafe"; found "b_c" "Bistro"]) MOCK_RESTAURANTS)
    demo_lobby.

Definition search_voted : Db.t :=
  after "a_b" (Some "41IOTI") (OnVote "c") search_voting.

(** Another variant: the search is configured and Alex has the Lobby open
    in two tabs. She starts the vote in the first, where the search finds
    the restaurant "c", and then in the second, which has not yet received
    the change and where the search finds "d". The first tab, showing the
    vote on "c", has not received the second change when she ends the
    vote there. *)




(** ** The rest of [App] and the [Voting] view *)

(** [resetApp()]. *)
Definition resetApp (s : App.state) : App.state :=
  App.mk (App.user s) View.landing None None [] [] (App.loadingMsg s)
         (App.isStarting s) false.

(** The [voteCounts] memo of [Voting]: the loop of [endVoting] again. *)
Definition voteCounts (votes : list Vote.t) : JS.object count :=
  tally votes.

(** [Math.max(...Object.values(voteCounts), 0)]; [None] stands for [NaN],
    the result as soon as one value is not a number. *)
Definition maxVotes (counts : JS.object count) : option Z :=
  fold_right (fun e m => match snd e with
                         | Num n => Z.max n <$> m
                         | Str => None
                         end)
             (Some 0) counts.

(** [voteCounts[restaurant.id] || 0]. The lookup also finds the members
    inherited from [Object.prototype]; such a function or object behaves
    in the comparisons of [isLeading] as the non-numeric string does. *)
Definition shownCount (counts : JS.object count) (rid : string) : count :=
  match JS.get rid counts with
  | Some (Num n) => Num (if n =? 0 then 0 else n)
  | Some Str => Str
  | None => if JS.inherited rid then Str else Num 0
  end.

(** [count > 0 && count === maxVotes]: the LEADING badge of a card. *)
Definition isLeading (counts : JS.object count) (rid : string) : bool :=
  match shownCount counts rid, maxVotes counts with
  | Num c, Some m => (0 <? c) && (c =? m)
  | _, _ => false
  end.

(** [votes.filter(v => v.userId === userId).map(v => v.restaurantId)],
    where [userId] is [user?.uid]. *)
Definition myVotes (userId : option string) (votes : list Vote.t) : list string :=
  List.map Vote.restaurantId
    (List.filter (fun v => match userId with
                           | Some uid => String.eqb (Vote.userId v) uid
                           | None => false
                           end) votes).

(** [myVotes.includes(restaurant.id)]: the Voted overlay of a card. *)
Definition voted (userId : option string) (votes : list Vote.t) (rid : string)
  : bool :=
  existsb (String.eqb rid) (myVotes userId votes).

(** The [count] of each card, in the order of
    [candidates.map(restaurant => ...)]. *)
Definition cardCounts (candidates : list Candidate.t) (votes : list Vote.t)
  : list count :=
  List.map (fun c => shownCount (voteCounts votes) (Candidate.id c)) candidates.

(** * Properties *)

(** Split a goal into its conjuncts. *)
Ltac conjunctions :=
  repeat match goal with |- _ ∧ _ => split end.

(** ** Own properties *)

Section ObjectFacts.
Context {V : Type}.
Implicit Types (o : JS.object V) (k : string) (v : V).

Lemma get_In k o : JS.get k o = None <-> ~ In k (List.map fst o).
Proof.
  induction o as [|[k' v'] o IH]; simpl; [tauto|].
  destruct (String.eqb_spec k k') as [->|Hne].
  - split; [discriminate | intros H; exfalso; apply H; now left].
  - rewrite IH. split; intros H; [intros [E|E]; [congruence | tauto] | tauto].
Qed.

Lemma set_fresh k v o : JS.get k o = None -> JS.set k v o = o ++ [(k, v)].
Proof.
  induction o as [|[k' v'] o IH]; simpl; [reflexivity|].
  destruct (String.eqb k k'); [discriminate|].
  intros H. now rewrite IH.
Qed.

Lemma place_In n (e : string * V) l x :
  In x (JS.place n e l) <-> x = (n, e) ∨ In x l.
Proof.
  induction l as [|[m e'] l IH]; simpl; [intuition|].
  destruct (n <=? m)%N; simpl; [intuition|].
  rewrite IH. intuition.
Qed.

Lemma indexed_In o e :
  In e (List.map snd (JS.indexed o)) <-> In e o ∧ JS.is_index (fst e) = true.
Proof.
  induction o as [|[k v] o IH]; simpl; [tauto|].
  unfold JS.is_index in *.
  destruct (JS.array_index k) as [n|] eqn:Hk.
  - rewrite in_map_iff. split.
    + intros [[m e'] [<- Hin]]. apply place_In in Hin as [Heq|Hin].
      * inversion Heq; subst. simpl. rewrite Hk. auto.
      * assert (H : In e' (List.map snd (JS.indexed o)))
          by (apply in_map_iff; exists (m, e'); auto).
        apply IH in H. tauto.
    + intros [[<-|Hin] He].
      * exists (n, (k, v)). split; [reflexivity | apply place_In; auto].
      * assert (H : In e (List.map snd (JS.indexed o))) by (apply IH; auto).
        apply in_map_iff in H as [x [<- Hx]].
        exists x. split; [reflexivity | apply place_In; auto].
  - rewrite IH. split; [tauto|].
    intros [[<-|Hin] He]; [simpl in He; rewrite Hk in He; discriminate | auto].
Qed.

(** [Object.entries] lists exactly the own properties. *)
Lemma entries_In o e : In e (JS.entries o) <-> In e o.
Proof.
  unfold JS.entries, JS.named. rewrite in_app_iff, indexed_In, filter_In.
  destruct (JS.is_index (fst e)); simpl; intuition congruence.
Qed.

(** Without array-index keys, [Object.entries] follows creation order. *)
Lemma entries_named o :
  (∀ e, In e o -> JS.is_index (fst e) = false) -> JS.entries o = o.
Proof.
  intros H. unfold JS.entries, JS.named.
  assert (Hi : JS.indexed o = []).
  { induction o as [|[k v] o IH]; simpl; [reflexivity|].
    pose proof (H (k, v) (or_introl eq_refl)) as Hk. unfold JS.is_index in Hk.
    simpl in Hk. destruct (JS.array_index k); [discriminate|].
    apply IH. intros e He. apply H. now right. }
  rewrite Hi. simpl.
  induction o as [|e o IH]; simpl; [reflexivity|].
  rewrite (H e (or_introl eq_refl)). simpl. f_equal.
  apply IH.
  - intros e' He'. apply H. now right.
  - clear -Hi. simpl in Hi. destruct e as [k v].
    destruct (JS.array_index k); [|assumption].
    destruct (JS.indexed o); simpl in Hi; [discriminate|].
    destruct p. destruct (_ <=? _)%N; discriminate.
Qed.
End ObjectFacts.

(** The order of [Object.entries] depends on the keys only. *)
Lemma place_keys {V W : Type} n k (v : V) (w : W) l1 l2 :
  List.map (fun x => (fst x, fst (snd x))) l1
  = List.map (fun x => (fst x, fst (snd x))) l2 ->
  List.map (fun x => (fst x, fst (snd x))) (JS.place n (k, v) l1)
  = List.map (fun x => (fst x, fst (snd x))) (JS.place n (k, w) l2).
Proof.
  revert l2. induction l1 as [|[m [k1 v1]] l1 IH]; intros [|[m2 [k2 w2]] l2] H;
    simpl in *; try discriminate; [reflexivity|].
  injection H as -> -> H.
  destruct (n <=? m2)%N; simpl.
  - now rewrite H.
  - f_equal. now apply IH.
Qed.

Lemma indexed_keys {V : Type} (f : string -> V) keys :
  List.map (fun x => (fst x, fst (snd x)))
    (JS.indexed (List.map (fun k => (k, f k)) keys))
  = List.map (fun x => (fst x, fst (snd x)))
      (JS.indexed (List.map (fun k => (k, tt)) keys)).
Proof.
  induction keys as [|k keys IH]; simpl; [reflexivity|].
  destruct (JS.array_index k); [|assumption].
  now apply place_keys.
Qed.

Lemma entries_keys {V : Type} (f : string -> V) keys :
  List.map fst (JS.entries (List.map (fun k => (k, f k)) keys))
  = ownKeyOrder keys.
Proof.
  unfold ownKeyOrder, JS.entries, JS.named.
  rewrite !List.map_app. f_equal.
  - rewrite !List.map_map.
    pose proof (indexed_keys f keys) as H.
    apply (f_equal (List.map snd)) in H. rewrite !List.map_map in H.
    exact H.
  - induction keys as [|k keys IH]; simpl; [reflexivity|].
    destruct (JS.is_index k); simpl; now rewrite IH.
Qed.

Lemma ownKeyOrder_named keys :
  (∀ k, In k keys -> JS.is_index k = false) -> ownKeyOrder keys = keys.
Proof.
  intros H. unfold ownKeyOrder. rewrite entries_named.
  - rewrite List.map_map. simpl. apply List.map_id.
  - intros e He. apply in_map_iff in He as [k [<- Hk]]. simpl. now apply H.
Qed.

(** Array-index keys come out in ascending order. *)
Lemma place_sorted {V : Type} n (e : string * V) l :
  Sorted N.le (List.map fst l) -> Sorted N.le (List.map fst (JS.place n e l)).
Proof.
  induction l as [|[m e'] l IH]; simpl; intros Hl.
  - repeat constructor.
  - destruct (N.leb_spec n m) as [Hle|Hgt]; simpl.
    + constructor; [assumption | now constructor].
    + inversion Hl as [|? ? Hl' Hhd]; subst.
      constructor; [now apply IH|].
      destruct l as [|[m' e''] l]; simpl in *.
      * constructor. lia.
      * destruct (n <=? m')%N; simpl; constructor; [lia|].
        now inversion Hhd.
Qed.

Lemma place_perm {V : Type} n (e : string * V) l :
  JS.place n e l ≡ₚ (n, e) :: l.
Proof.
  induction l as [|[m e'] l IH]; simpl; [reflexivity|].
  destruct (n <=? m)%N; [reflexivity|].
  rewrite IH. apply perm_swap.
Qed.

Lemma indexed_tag {V : Type} (o : JS.object V) x :
  In x (JS.indexed o) -> JS.array_index (fst (snd x)) = Some (fst x).
Proof.
  induction o as [|[k v] o IH]; simpl; [tauto|].
  destruct (JS.array_index k) as [n|] eqn:Hk; [|assumption].
  intros Hx. apply (Permutation_in _ (place_perm n (k, v) _)) in Hx.
  destruct Hx as [<-|Hx]; [exact Hk | now apply IH].
Qed.

Lemma indexed_sorted {V : Type} (o : JS.object V) :
  Sorted N.le (List.map fst (JS.indexed o)).
Proof.
  induction o as [|[k v] o IH]; simpl; [constructor|].
  destruct (JS.array_index k); [now apply place_sorted | assumption].
Qed.

(** [Object.entries] on keys created in the order [keys]: the array-index
    keys in ascending order, then the other keys as created. *)
Lemma ownKeyOrder_shape keys :
  ∃ numeric,
    ownKeyOrder keys
    = numeric ++ List.filter (fun k => negb (JS.is_index k)) keys
    ∧ numeric ≡ₚ List.filter JS.is_index keys
    ∧ Sorted N.le (List.map indexValue numeric).
Proof.
  set (o := List.map (fun k => (k, tt)) keys).
  exists (List.map fst (List.map snd (JS.indexed o))). conjunctions.
  - unfold ownKeyOrder, JS.entries, JS.named. fold o. rewrite List.map_app.
    f_equal. subst o. induction keys as [|k keys IH]; simpl; [reflexivity|].
    destruct (JS.is_index k); simpl; now rewrite IH.
  - subst o. induction keys as [|k keys IH]; simpl; [reflexivity|].
    destruct (JS.array_index k) as [n|] eqn:Hk.
    + assert (Hi : JS.is_index k = true) by (unfold JS.is_index; now rewrite Hk).
      rewrite Hi, place_perm. simpl. now apply perm_skip.
    + assert (Hi : JS.is_index k = false) by (unfold JS.is_index; now rewrite Hk).
      now rewrite Hi.
  - replace (List.map indexValue (List.map fst (List.map snd (JS.indexed o))))
      with (List.map fst (JS.indexed o)); [apply indexed_sorted|].
    rewrite !List.map_map. apply List.map_ext_in. intros x Hx.
    unfold indexValue. now rewrite (indexed_tag o x Hx).
Qed.

(** ** The tally *)

Lemma votesFor_nil rid : votesFor rid [] = 0.
Proof. reflexivity. Qed.

Lemma votesFor_app rid votes1 votes2 :
  votesFor rid (votes1 ++ votes2) = votesFor rid votes1 + votesFor rid votes2.
Proof.
  unfold votesFor. rewrite List.filter_app, List.length_app. lia.
Qed.

Lemma votesFor_nonneg rid votes : 0 <= votesFor rid votes.
Proof. unfold votesFor. lia. Qed.

Lemma votesFor_one rid v :
  votesFor rid [v] = if String.eqb (Vote.restaurantId v) rid then 1 else 0.
Proof. unfold votesFor. simpl. now destruct (String.eqb _ _). Qed.

Lemma firstSeen_In rid votes :
  In rid (firstSeen votes) <-> ∃ v, In v votes ∧ Vote.restaurantId v = rid.
Proof.
  induction votes as [|v votes IH]; simpl.
  - split; [tauto | intros [? [[] _]]].
  - rewrite filter_In, IH. split.
    + intros [<-|[[v' [Hv' <-]] _]]; eauto.
    + intros [v' [[->|Hv'] <-]]; [now left|].
      destruct (String.eqb_spec (Vote.restaurantId v') (Vote.restaurantId v)) as [E|E].
      * left. now rewrite E.
      * right. split; [eauto | reflexivity].
Qed.

Lemma votesFor_pos rid votes :
  In rid (firstSeen votes) <-> 0 < votesFor rid votes.
Proof.
  rewrite firstSeen_In. unfold votesFor. split.
  - intros [v [Hv <-]].
    assert (H : In v (List.filter (fun v0 => String.eqb (Vote.restaurantId v0) (Vote.restaurantId v)) votes)).
    { apply filter_In. split; [assumption | apply String.eqb_refl]. }
    destruct (List.filter _ votes); [destruct H | simpl; lia].
  - intros H.
    destruct (List.filter _ votes) as [|v l] eqn:E; [simpl in H; lia|].
    assert (Hv : In v (v :: l)) by now left.
    rewrite <- E in Hv. apply filter_In in Hv as [Hv Hr].
    exists v. split; [assumption | now apply String.eqb_eq].
Qed.

Lemma firstSeen_NoDup votes : List.NoDup (firstSeen votes).
Proof.
  induction votes as [|v votes IH]; simpl; constructor.
  - rewrite filter_In. intros [_ H]. now rewrite String.eqb_refl in H.
  - now apply List.NoDup_filter.
Qed.

Lemma firstSeen_snoc votes v :
  firstSeen (votes ++ [v])
  = firstSeen votes
    ++ (if existsb (String.eqb (Vote.restaurantId v)) (firstSeen votes)
        then [] else [Vote.restaurantId v]).
Proof.
  induction votes as [|a votes IH]; simpl; [reflexivity|].
  rewrite IH, List.filter_app. f_equal. f_equal.
  destruct (String.eqb_spec (Vote.restaurantId v) (Vote.restaurantId a)) as [E|E]; simpl.
  - destruct (existsb _ _); simpl; [reflexivity|].
    rewrite E, String.eqb_refl. reflexivity.
  - assert (Hx : existsb (String.eqb (Vote.restaurantId v))
                   (List.filter (fun k => negb (String.eqb k (Vote.restaurantId a))) (firstSeen votes))
                 = existsb (String.eqb (Vote.restaurantId v)) (firstSeen votes)).
    { apply eq_true_iff_eq. rewrite !existsb_exists. split.
      - intros [x [Hx Hv]]. apply filter_In in Hx. exists x. tauto.
      - intros [x [Hx Hv]]. exists x. split; [|assumption].
        apply filter_In. split; [assumption|].
        apply String.eqb_eq in Hv. subst x.
        apply negb_true_iff. now apply String.eqb_neq. }
    rewrite Hx. destruct (existsb _ _); simpl; [reflexivity|].
    apply String.eqb_neq in E. now rewrite E.
Qed.

Lemma tally_snoc votes v :
  tally (votes ++ [v]) = bump (tally votes) (Vote.restaurantId v).
Proof. unfold tally. now rewrite List.fold_left_app. Qed.

Lemma get_map {V : Type} (f : string -> V) keys k :
  JS.get k (List.map (fun x => (x, f x)) keys)
  = if existsb (String.eqb k) keys then Some (f k) else None.
Proof.
  induction keys as [|k' keys IH]; simpl; [reflexivity|].
  destruct (String.eqb_spec k k') as [->|_]; simpl; [reflexivity | exact IH].
Qed.

Lemma set_map {V : Type} (f : string -> V) keys k v :
  List.NoDup keys -> In k keys ->
  JS.set k v (List.map (fun x => (x, f x)) keys)
  = List.map (fun x => (x, if String.eqb x k then v else f x)) keys.
Proof.
  induction keys as [|k' keys IH]; simpl; [tauto|].
  intros Hnd Hin. inversion Hnd as [|? ? Hk' Hnd']; subst.
  destruct (String.eqb_spec k k') as [->|Hne].
  - rewrite String.eqb_refl. f_equal.
    apply List.map_ext_in. intros x Hx.
    destruct (String.eqb_spec x k') as [->|_]; [contradiction | reflexivity].
  - destruct (String.eqb_spec k' k) as [E|_]; [congruence|].
    f_equal. apply IH; [assumption|]. destruct Hin; [congruence | assumption].
Qed.

(** The tally holds, in the order of their first occurrence, the ids
    voted for, each with its number of votes. *)
Lemma tally_closed votes :
  (∀ v, In v votes -> JS.inherited (Vote.restaurantId v) = false) ->
  tally votes
  = List.map (fun k => (k, Num (votesFor k votes))) (firstSeen votes).
Proof.
  induction votes as [|v votes IH] using rev_ind; intros Hplain; [reflexivity|].
  rewrite tally_snoc, IH by (intros v' Hv'; apply Hplain, in_or_app; now left).
  assert (Hv : JS.inherited (Vote.restaurantId v) = false)
    by (apply Hplain, in_or_app; right; now left).
  set (rid := Vote.restaurantId v) in *.
  unfold bump. rewrite get_map, firstSeen_snoc. fold rid.
  destruct (existsb (String.eqb rid) (firstSeen votes)) eqn:Hex.
  - rewrite List.app_nil_r.
    apply existsb_exists in Hex as [x [Hx Heq]].
    apply String.eqb_eq in Heq. subst x.
    rewrite set_map by (auto using firstSeen_NoDup).
    apply List.map_ext. intros k. rewrite votesFor_app, votesFor_one. fold rid.
    rewrite (String.eqb_sym k rid).
    destruct (String.eqb_spec rid k) as [<-|_].
    + destruct (votesFor rid votes =? 0) eqn:E; [|reflexivity].
      apply Z.eqb_eq in E. now rewrite E.
    + now rewrite Z.add_0_r.
  - rewrite Hv. rewrite set_fresh by (rewrite get_map, Hex; reflexivity).
    rewrite List.map_app. simpl. f_equal.
    + apply List.map_ext_in. intros k Hk.
      rewrite votesFor_app, votesFor_one. fold rid.
      destruct (String.eqb_spec rid k) as [<-|_]; [|now rewrite Z.add_0_r].
      assert (Hc : existsb (String.eqb rid) (firstSeen votes) = true)
        by (apply existsb_exists; exists rid; split; [assumption | apply String.eqb_refl]).
      congruence.
    + rewrite votesFor_app, votesFor_one. fold rid. rewrite String.eqb_refl.
      assert (H0 : votesFor rid votes = 0).
      { pose proof (votesFor_nonneg rid votes) as Hn.
        destruct (Z.eq_dec (votesFor rid votes) 0) as [E|E]; [assumption|].
        assert (Hin : In rid (firstSeen votes)) by (apply votesFor_pos; lia).
        assert (Hc : existsb (String.eqb rid) (firstSeen votes) = true)
          by (apply existsb_exists; exists rid; split; [assumption | apply String.eqb_refl]).
        congruence. }
      now rewrite H0.
Qed.

(** The loop over the entries keeps the first entry of highest count. *)
Lemma leader_scan (es : list (string * count)) (w0 : option string) (m0 : Z) :
  (fold_left leader es (w0, m0) = (w0, m0)
   ∧ ∀ e c, In e es -> snd e = Num c -> c <= m0)
  ∨ (∃ before k c after,
        es = before ++ (k, Num c) :: after
        ∧ fold_left leader es (w0, m0) = (Some k, c)
        ∧ m0 < c
        ∧ (∀ e c', In e before -> snd e = Num c' -> c' < c)
        ∧ (∀ e c', In e after -> snd e = Num c' -> c' <= c)).
Proof.
  revert w0 m0. induction es as [|[k v] es IH]; intros w0 m0; simpl.
  - left. split; [reflexivity | intros e c []].
  - destruct v as [c|].
    2: change (leader (w0, m0) (k, Str)) with (w0, m0).
    1: change (leader (w0, m0) (k, Num c))
         with (if m0 <? c then (Some k, c) else (w0, m0));
       destruct (Z.ltb_spec m0 c) as [Hlt|Hge].
    + destruct (IH (Some k) c)
        as [[Heq Hle] | (before & k' & c' & after & -> & Heq & Hlt' & Hb & Ha)].
      * right. exists [], k, c, es. conjunctions; auto. intros e c' [].
      * right. exists ((k, Num c) :: before), k', c', after.
        conjunctions; auto; [lia|].
        intros e c'' [<-|He] Hs; [simpl in Hs; injection Hs as <-; lia | eauto].
    + destruct (IH w0 m0)
        as [[Heq Hle] | (before & k' & c' & after & -> & Heq & Hlt' & Hb & Ha)].
      * left. split; [assumption|].
        intros e c' [<-|He] Hs; [simpl in Hs; injection Hs as <-; lia | eauto].
      * right. exists ((k, Num c) :: before), k', c', after.
        conjunctions; auto.
        intros e c'' [<-|He] Hs; [simpl in Hs; injection Hs as <-; lia | eauto].
    + destruct (IH w0 m0)
        as [[Heq Hle] | (before & k' & c' & after & -> & Heq & Hlt' & Hb & Ha)].
      * left. split; [assumption|].
        intros e c' [<-|He] Hs; [discriminate | eauto].
      * right. exists ((k, Str) :: before), k', c', after.
        conjunctions; auto.
        intros e c'' [<-|He] Hs; [discriminate | eauto].
Qed.

(** [find] on the candidates: the first one with the id, when there is
    one. *)
Lemma pick_named candidates wid :
  (∃ c, In c candidates ∧ Candidate.id c = wid) ->
  ∃ w, pick candidates wid = Some w ∧ In w candidates ∧ Candidate.id w = wid.
Proof.
  intros [c [Hc Hid]]. unfold pick.
  destruct (List.find _ candidates) as [w|] eqn:Hf.
  - apply List.find_some in Hf as [Hw He]. apply String.eqb_eq in He. eauto.
  - apply (List.find_none _ _ Hf) in Hc. rewrite Hid, String.eqb_refl in Hc.
    discriminate.
Qed.

Lemma pick_In candidates wid w :
  pick candidates wid = Some w -> In w candidates.
Proof.
  unfold pick. destruct (List.find _ candidates) as [c|] eqn:Hf.
  - intros [= <-]. now apply List.find_some in Hf.
  - destruct candidates; simpl; [discriminate | intros [= <-]; now left].
Qed.

Lemma resolve_In candidates votes w :
  resolve candidates votes = Ok (Some w) -> In w candidates.
Proof.
  unfold resolve. destruct (winnerId candidates votes) as [wid|]; simpl.
  - intros [= H]. eauto using pick_In.
  - discriminate.
Qed.

Lemma resolve_no_votes c cs : resolve (c :: cs) [] = Ok (Some c).
Proof.
  unfold resolve, winnerId, first_id, pick. simpl.
  now rewrite String.eqb_refl.
Qed.

(** ** Winner selection *)

(** A check that decides [votesNameCandidates]. *)
Lemma votesNameCandidates_check candidates votes :
  forallb (fun v => existsb (fun c => String.eqb (Candidate.id c) (Vote.restaurantId v))
                      candidates) votes = true ->
  votesNameCandidates candidates votes.
Proof.
  intros H v Hv. rewrite forallb_forall in H. apply H in Hv.
  apply existsb_exists in Hv as [c [Hc He]]. apply String.eqb_eq in He. eauto.
Qed.

(** C1 (as amended). With at least one vote, every vote naming a listed
    candidate by a plain id, [endVoting] resolves to a listed candidate
    that no id outpolls, so to the one with strictly most votes when
    there is one; among the ids at the highest count it is the first in the
    iteration order of the tally. That order is the own-property order of
    the ids taken in the order of their first occurrence in the [votes]
    array, the snapshot of the client, which need not list the votes in
    the order in which they were cast: the ids that are array indices
    first, ascending, then the others in the order of their first
    occurrence; it is the order of first occurrence whenever no voted id
    is an array index. The result is a function of the candidates and the
    votes. *)
Theorem endVoting_winner candidates votes :
  votes ≠ [] ->
  votesNameCandidates candidates votes ->
  (∀ v, In v votes -> plainKey (Vote.restaurantId v)) ->
  ∃ w,
    resolve candidates votes = Ok (Some w)
    ∧ In w candidates
    ∧ (∀ rid, votesFor rid votes <= votesFor (Candidate.id w) votes)
    ∧ (∀ c, In c candidates ->
         (∀ c', In c' candidates -> Candidate.id c' ≠ Candidate.id c ->
                votesFor (Candidate.id c') votes < votesFor (Candidate.id c) votes) ->
         Candidate.id w = Candidate.id c)
    ∧ firstAtMax (tallyOrder votes) votes (Candidate.id w)
    ∧ (∃ numeric,
          tallyOrder votes
          = numeric ++ List.filter (fun k => negb (JS.is_index k)) (firstSeen votes)
          ∧ numeric ≡ₚ List.filter JS.is_index (firstSeen votes)
          ∧ Sorted N.le (List.map indexValue numeric))
    ∧ ((∀ v, In v votes -> JS.is_index (Vote.restaurantId v) = false) ->
       tallyOrder votes = firstSeen votes)
    ∧ (∀ r, resolve candidates votes = r -> r = Ok (Some w)).
Proof.
  intros Hne Hnamed Hplain.
  assert (Htally : tally votes
            = List.map (fun k => (k, Num (votesFor k votes))) (firstSeen votes))
    by (apply tally_closed; intros v Hv; now apply Hplain).
  assert (Hval : ∀ e, In e (JS.entries (tally votes)) ->
            In (fst e) (firstSeen votes) ∧ snd e = Num (votesFor (fst e) votes)).
  { intros e He. apply (proj1 (entries_In _ _)) in He. rewrite Htally in He.
    apply in_map_iff in He as [k [<- Hk]]. simpl. auto. }
  assert (Horder : tallyOrder votes = ownKeyOrder (firstSeen votes))
    by (unfold tallyOrder; rewrite Htally; apply entries_keys).
  destruct votes as [|v0 votes0] eqn:Evotes; [congruence|]. rewrite <- Evotes in *.
  destruct (leader_scan (JS.entries (tally votes)) None (-1))
    as [[_ Hle] | (before & k & c & after & Hes & Hfold & _ & Hb & Ha)].
  { exfalso.
    assert (Hin : In (Vote.restaurantId v0) (firstSeen votes))
      by (rewrite Evotes; now left).
    pose proof (proj1 (votesFor_pos _ _) Hin) as Hpos.
    assert (He : In (Vote.restaurantId v0, Num (votesFor (Vote.restaurantId v0) votes))
                    (JS.entries (tally votes))).
    { apply (proj2 (entries_In _ _)). rewrite Htally. apply in_map_iff. eauto. }
    specialize (Hle _ _ He eq_refl). lia. }
  assert (Hk : In (k, Num c) (JS.entries (tally votes)))
    by (rewrite Hes; apply in_or_app; right; now left).
  destruct (Hval _ Hk) as [Hkin Hkc]. simpl in Hkin, Hkc. injection Hkc as ->.
  apply firstSeen_In in Hkin as [vk [Hvk Hrid]].
  destruct (Hplain _ Hvk) as [Hfalsy _]. rewrite Hrid in Hfalsy.
  destruct (Hnamed _ Hvk) as [ck Hck]. rewrite Hrid in Hck.
  destruct (pick_named candidates k (ex_intro _ ck Hck)) as [w [Hpick [Hw Hid]]].
  assert (Hres : resolve candidates votes = Ok (Some w)).
  { unfold resolve, winnerId. rewrite Evotes at 1. rewrite Hfold. simpl.
    rewrite Hfalsy. simpl. now rewrite Hpick. }
  assert (Hmax : ∀ rid, votesFor rid votes <= votesFor (Candidate.id w) votes).
  { intros rid. rewrite Hid.
    destruct (Z.eq_dec (votesFor rid votes) 0) as [E|E].
    - rewrite E. apply votesFor_nonneg.
    - assert (Hin : In rid (firstSeen votes))
        by (apply votesFor_pos; pose proof (votesFor_nonneg rid votes); lia).
      assert (He : In (rid, Num (votesFor rid votes)) (JS.entries (tally votes))).
      { apply (proj2 (entries_In _ _)). rewrite Htally. apply in_map_iff. eauto. }
      rewrite Hes in He. apply in_app_or in He as [He|[He|He]].
      + specialize (Hb _ _ He eq_refl). lia.
      + injection He as -> _. lia.
      + exact (Ha _ _ He eq_refl). }
  exists w. split; [assumption|]. split; [assumption|]. split; [assumption|].
  split; [|split; [|split; [|split]]].
  - intros cand Hcand Hstrict.
    destruct (string_dec (Candidate.id w) (Candidate.id cand)) as [E|E]; [assumption|].
    specialize (Hstrict w Hw E). specialize (Hmax (Candidate.id cand)). lia.
  - rewrite Hid. exists (List.map fst before), (List.map fst after).
    conjunctions.
    + unfold tallyOrder. rewrite Hes, List.map_app. reflexivity.
    + intros k' Hk'. apply in_map_iff in Hk' as [e [<- He]].
      assert (Hin : In e (JS.entries (tally votes)))
        by (rewrite Hes; apply in_or_app; now left).
      apply (Hb e); [assumption | now apply Hval].
    + intros k' Hk'. apply in_map_iff in Hk' as [e [<- He]].
      assert (Hin : In e (JS.entries (tally votes)))
        by (rewrite Hes; apply in_or_app; right; now right).
      apply (Ha e); [assumption | now apply Hval].
  - rewrite Horder. apply ownKeyOrder_shape.
  - intros Hnamedkeys. rewrite Horder. apply ownKeyOrder_named.
    intros k' Hk'. apply firstSeen_In in Hk' as [v [Hv <-]]. now apply Hnamedkeys.
  - intros r <-. exact Hres.
Qed.

Lemma endVoting_winner_witness :
  ∃ w,
    resolve MOCK_RESTAURANTS
      [Vote.mk (Some "41IOTI") "u1" "r2"; Vote.mk (Some "41IOTI") "u2" "r3";
       Vote.mk (Some "41IOTI") "u1" "r3"] = Ok (Some w)
    ∧ Candidate.id w = "r3".
Proof.
  destruct (endVoting_winner MOCK_RESTAURANTS
              [Vote.mk (Some "41IOTI") "u1" "r2"; Vote.mk (Some "41IOTI") "u2" "r3";
               Vote.mk (Some "41IOTI") "u1" "r3"])
    as [w [Hres _]].
  - discriminate.
  - apply votesNameCandidates_check. reflexivity.
  - intros v [<-|[<-|[<-|[]]]]; split; reflexivity.
  - exists w. split; [assumption|].
    vm_compute in Hres. now injection Hres as <-.
Defined.

(** C1, as stated, fails: two candidates with the ids "1" and "2", one vote
    for "2" and then one for "1", listed in this order. Both have one
    vote, "2" received its vote first, and [endVoting] picks "1", which
    [Object.entries] lists first. *)
Lemma endVoting_winner_not_first_voted :
  ∃ candidates votes w,
    candidates ≠ [] ∧ votes ≠ []
    ∧ votesNameCandidates candidates votes
    ∧ resolve candidates votes = Ok (Some w)
    ∧ firstSeen votes = ["2"; "1"]
    ∧ Candidate.id w = "1"
    ∧ ¬ firstAtMax (firstSeen votes) votes (Candidate.id w).
Proof.
  exists [found "1" "One"; found "2" "Two"],
         [Vote.mk (Some "41IOTI") "u1" "2"; Vote.mk (Some "41IOTI") "u2" "1"],
         (found "1" "One").
  conjunctions; try discriminate; try reflexivity.
  - apply votesNameCandidates_check. reflexivity.
  - intros (before & after & Heq & Hb & _). simpl in Heq.
    destruct before as [|b [|b' before]]; simpl in Heq; try discriminate.
    + injection Heq as <- _. specialize (Hb "2" (or_introl eq_refl)).
      vm_compute in Hb. discriminate.
    + injection Heq as _ _ Heq. destruct before; discriminate.
Qed.

(** C2. With no votes and a non-empty candidate list, [endVoting] resolves
    to [candidates[0]] and stores it as the winner of the finished
    session. *)
Theorem endVoting_no_votes s db uid sid id data d c cs :
  App.active s = Some (uid, sid) ->
  App.sessionData s = Some (id, data) ->
  Session.candidates data = c :: cs ->
  App.votes s = [] ->
  Db.sessions db !! sid = Some d ->
  resolve (Session.candidates data) (App.votes s) = Ok (Some c)
  ∧ endVoting s db
    = Ok (s, Db.mk (<[sid := Session.mk (Session.hostId d) (Session.location d)
                                 finished (Session.candidates d) (Some c)]>
                      (Db.sessions db))
                   (Db.participants db) (Db.votes db)).
Proof.
  intros Hact Hdata Hcs Hvotes Hd.
  unfold endVoting, updateSession.
  rewrite Hact, Hdata, Hcs, Hvotes, resolve_no_votes. simpl.
  now rewrite Hd.
Qed.

Lemma endVoting_no_votes_witness :
  resolve MOCK_RESTAURANTS [] = Ok (List.head MOCK_RESTAURANTS)
  ∧ ∃ db', endVoting
             (App.mk (Some "h") View.voting (Some "41IOTI")
                (Some ("41IOTI", Session.mk "h" "Atlanta, GA" voting MOCK_RESTAURANTS None))
                [] [] "" false false)
             (Db.mk {["41IOTI" := Session.mk "h" "Atlanta, GA" voting MOCK_RESTAURANTS None]} ∅ ∅)
           = Ok (App.mk (Some "h") View.voting (Some "41IOTI")
                   (Some ("41IOTI", Session.mk "h" "Atlanta, GA" voting MOCK_RESTAURANTS None))
                   [] [] "" false false, db').
Proof.
  destruct (endVoting_no_votes
              (App.mk (Some "h") View.voting (Some "41IOTI")
                 (Some ("41IOTI", Session.mk "h" "Atlanta, GA" voting MOCK_RESTAURANTS None))
                 [] [] "" false false)
              (Db.mk {["41IOTI" := Session.mk "h" "Atlanta, GA" voting MOCK_RESTAURANTS None]} ∅ ∅)
              "h" "41IOTI" "41IOTI"
              (Session.mk "h" "Atlanta, GA" voting MOCK_RESTAURANTS None)
              (Session.mk "h" "Atlanta, GA" voting MOCK_RESTAURANTS None)
              (Candidate.mk "r1" "Che Butter Jonez (Mock)"
                 "https://images.unsplash.com/photo-1568901346375-23c9450c58cd?auto=format&fit=crop&w=800&q=80"
                 (48 # 10) 342 "$$" "Halal, Burgers, Seafood"
                 "1602 Lavista Rd NE, Atlanta, GA 30329")
              (List.tl MOCK_RESTAURANTS))
    as [Hres Hend]; try reflexivity.
  split; [exact Hres | eexists; exact Hend].
Defined.

(** ** Snapshots *)

Lemma participantsOf_In db sid p :
  In p (participantsOf db sid)
  <-> ∃ k, Db.participants db !! k = Some p ∧ Participant.sessionId p = sid.
Proof.
  unfold participantsOf. rewrite <- list_elem_of_In, list_elem_of_filter, list_elem_of_fmap.
  split.
  - intros [Hs [[k p'] [-> Hk]]]. apply elem_of_map_to_list in Hk. eauto.
  - intros [k [Hk Hs]]. split; [assumption|].
    exists (k, p). split; [reflexivity | now apply elem_of_map_to_list].
Qed.

Lemma votesOf_In db sid v :
  In v (votesOf db sid)
  <-> ∃ k, Db.votes db !! k = Some v ∧ Vote.sessionId v = Some sid.
Proof.
  unfold votesOf. rewrite <- list_elem_of_In, list_elem_of_filter, list_elem_of_fmap.
  split.
  - intros [Hs [[k v'] [-> Hk]]]. apply elem_of_map_to_list in Hk. eauto.
  - intros [k [Hk Hs]]. split; [assumption|].
    exists (k, v). split; [reflexivity | now apply elem_of_map_to_list].
Qed.

Lemma synced_sync db uid sid : synced (sync db (client uid sid)) db.
Proof.
  unfold synced, sync.
  destruct (App.active (client uid sid)) as [[u i]|] eqn:Hact.
  - assert (Hact' : ∀ v sd ps vs,
              App.active (App.mk (App.user (client uid sid)) v
                            (App.sessionId (client uid sid)) sd ps vs "" false false)
              = Some (u, i)) by (intros; exact Hact).
    simpl. simpl in Hact'. rewrite Hact'.
    destruct (Db.sessions db !! i) as [d|]; simpl; [|auto].
    conjunctions; auto. now destruct (Session.status d).
  - rewrite Hact. simpl. auto.
Qed.

(** A client that has seen one of the stores is behind them. *)
Lemma synced_behind s db stores :
  synced s db -> In db stores -> behind s stores.
Proof.
  unfold synced, behind. intros Hs Hin.
  destruct (App.active s) as [[uid sid]|]; [|assumption].
  destruct Hs as (Hd & Hp & Hv & _). conjunctions; exists db; auto.
Qed.

Lemma behind_sessionData s stores uid sid id data :
  behind s stores -> App.active s = Some (uid, sid) ->
  App.sessionData s = Some (id, data) ->
  id = sid ∧ ∃ db0, In db0 stores ∧ Db.sessions db0 !! sid = Some data.
Proof.
  unfold behind. intros Hs Hact Hdata. rewrite Hact in Hs.
  destruct Hs as [(db0 & Hin & Hsd) _]. rewrite Hdata in Hsd.
  destruct (Db.sessions db0 !! sid) as [d0|] eqn:Hd0; simpl in Hsd; [|discriminate].
  injection Hsd as -> ->. eauto.
Qed.

Lemma reachable_empty : reachable Db.empty.
Proof. exists [], []. constructor. Qed.

(** The runs of clients that have seen the store as it is are among the
    runs of the program. *)
Lemma reachable_run db s a s' db' :
  reachable db -> synced s db -> admissible a ->
  run a s db = Ok (s', db') -> reachable db'.
Proof.
  intros (past & waiting & Ht) Hs Ha Hrun. exists (db :: past), waiting.
  eapply trace_run; eauto. apply (synced_behind s db); [assumption | now left].
Qed.

Lemma reachable_after db uid sid a :
  reachable db -> admissible a -> reachable (after uid sid a db).
Proof.
  intros Hr Ha. unfold after.
  destruct (run a (sync db (client uid sid)) db) as [[s' db']|] eqn:Hrun; [|assumption].
  eapply reachable_run; eauto using synced_sync.
Qed.



(** ** What one handler invocation writes *)

(** Case analysis of a successful handler invocation. *)
Ltac run_cases H :=
  match type of H with run ?a _ _ = _ => destruct a; simpl in H end;
  unfold createSession, joinSession, submitPreference, startVoting, endVoting,
    onVote, updateSession, mbind, res_bind, JS.bind in H;
  repeat match type of H with
         | context [match ?x with _ => _ end] =>
             lazymatch x with
             | context [match _ with _ => _ end] => fail
             | _ => destruct x eqn:?; simpl in H
             end
         end;
  try discriminate; inversion H; subst; clear H.

Lemma selected_nonempty fetched shuffled :
  shuffled ≡ₚ MOCK_RESTAURANTS -> selected fetched shuffled ≠ [].
Proof.
  intros Hp. apply Permutation_length in Hp.
  destruct fetched as [[|c cs]|]; simpl; try discriminate;
    (destruct shuffled; [discriminate Hp | discriminate]).
Qed.

Lemma synced_sessionData s db uid sid id data :
  synced s db -> App.active s = Some (uid, sid) ->
  App.sessionData s = Some (id, data) ->
  id = sid ∧ Db.sessions db !! sid = Some data.
Proof.
  unfold synced. intros Hs Hact Hdata. rewrite Hact in Hs.
  destruct Hs as [Hsd _]. rewrite Hdata in Hsd.
  destruct (Db.sessions db !! sid); simpl in Hsd; [|discriminate].
  now injection Hsd as -> ->.
Qed.

Lemma run_sessions a s db past s' db' :
  behind s (db :: past) -> admissible a -> run a s db = Ok (s', db') ->
  Db.sessions db' = Db.sessions db
  ∨ ∃ sid d, sessionWrite (db :: past) db a sid d
             ∧ Db.sessions db' = <[sid := d]> (Db.sessions db).
Proof.
  intros Hs Ha Hrun. run_cases Hrun; simpl; auto.
  - right. eexists _, _. split; [constructor | reflexivity].
  - right. eexists _, _. split; [|reflexivity].
    constructor; [assumption | now apply selected_nonempty].
  - right. eexists _, _. split; [|reflexivity].
    match goal with
    | Hact : App.active _ = Some _, Hd : App.sessionData _ = Some _ |- _ =>
        destruct (behind_sessionData _ _ _ _ _ _ Hs Hact Hd)
          as [-> (db0 & Hin0 & Hl0)]
    end.
    econstructor; eauto using resolve_In.
Qed.

Lemma run_participants a s db s' db' :
  run a s db = Ok (s', db') ->
  Db.participants db' = Db.participants db
  ∨ ∃ p, Db.participants db'
         = <[participantDocId (Participant.sessionId p) (Participant.userId p) := p]>
             (Db.participants db).
Proof.
  intros Hrun. run_cases Hrun; simpl; auto; right; eexists (Participant.mk _ _ _ _ _);
    reflexivity.
Qed.

Lemma run_votes a s db s' db' :
  run a s db = Ok (s', db') ->
  Db.votes db' = Db.votes db
  ∨ (∃ k, Db.votes db' = delete k (Db.votes db))
  ∨ ∃ v, Db.votes db'
         = <[voteDocId (JS.interpolate (Vote.sessionId v)) (Vote.userId v)
               (Vote.restaurantId v) := v]> (Db.votes db).
Proof.
  intros Hrun. run_cases Hrun; simpl; auto.
  - right. left. eauto.
  - right. right. eexists (Vote.mk _ _ _). reflexivity.
Qed.

(** ** Invariants of the reachable stores *)

Lemma sessionWrite_shape stores db a sid d :
  sessionWrite stores db a sid d -> sessionShape stores sid d.
Proof.
  intros [random hostName location uid | fetched shuffled sid' d0 Hd Hsel
         | sid' d0 w db0 d1 Hd Hin Hd1 Hw]; unfold sessionShape; simpl.
  - conjunctions; [auto | discriminate | discriminate].
  - conjunctions; [discriminate | auto | discriminate].
  - conjunctions; [discriminate | discriminate | eauto 8].
Qed.

Lemma sessionShape_mono db past sid d :
  sessionShape past sid d -> sessionShape (db :: past) sid d.
Proof.
  intros (Ho & Hv & Hf). unfold sessionShape. conjunctions; auto.
  intros E. destruct (Hf E) as (w & Hw & db0 & d0 & Hin & Hd0 & Hc).
  exists w. split; [assumption|]. exists db0, d0. conjunctions; auto. now right.
Qed.

(** What one handler run keeps of the shape of the session documents. *)
Lemma run_sessionShape a s db past s' db' :
  (∀ sid d, Db.sessions db !! sid = Some d -> sessionShape past sid d) ->
  behind s (db :: past) -> admissible a -> run a s db = Ok (s', db') ->
  ∀ sid d, Db.sessions db' !! sid = Some d -> sessionShape (db :: past) sid d.
Proof.
  intros IH Hs Ha Hrun sid d Hd.
  destruct (run_sessions _ _ _ _ _ _ Hs Ha Hrun) as [E | (sid' & d' & Hw & E)];
    rewrite E in Hd; [eauto using sessionShape_mono|].
  destruct (decide (sid' = sid)) as [->|Hne].
  - rewrite lookup_insert_eq in Hd. injection Hd as <-.
    eauto using sessionWrite_shape.
  - rewrite lookup_insert_ne in Hd by assumption. eauto using sessionShape_mono.
Qed.

Lemma trace_sessions db past waiting :
  trace (db :: past) waiting ->
  ∀ sid d, Db.sessions db !! sid = Some d -> sessionShape past sid d.
Proof.
  intros Ht. remember (db :: past) as stores eqn:E. revert db past E.
  induction Ht as [ | db0 past0 waiting s a s' db' Ht IH Hs Ha Hrun
                    | db0 past0 waiting s uid random hostName location s' db'
                        Ht IH Hs Hu Hrun
                    | db0 past0 waiting waiting' p Ht IH ];
    intros db past E sid d Hd; injection E as <- <-.
  - simpl in Hd. now rewrite lookup_empty in Hd.
  - eapply run_sessionShape; eauto.
  - apply (run_sessionShape (CreateSession random hostName location) s db0 past0 s' db');
      [eauto | assumption | exact I | exact Hrun | exact Hd].
  - apply sessionShape_mono. eauto.
Qed.

Lemma reachable_open db sid d :
  reachable db -> Db.sessions db !! sid = Some d ->
  Session.status d = open -> Session.candidates d = [].
Proof.
  intros (past & waiting & Ht) Hd Ho.
  now destruct (trace_sessions db past waiting Ht sid d Hd) as ((E & _) & _); auto.
Qed.

(** What one handler run keeps of the keys of the documents. *)
Lemma run_wellKeyed a s db s' db' :
  wellKeyed db -> run a s db = Ok (s', db') -> wellKeyed db'.
Proof.
  intros [IHp IHv] Hrun. split.
  - intros k p Hk.
    destruct (run_participants _ _ _ _ _ Hrun) as [E | [p' E]];
      rewrite E in Hk; [eauto|].
    destruct (decide (participantDocId (Participant.sessionId p') (Participant.userId p') = k))
      as [<-|Hne].
    + rewrite lookup_insert_eq in Hk. now injection Hk as <-.
    + rewrite lookup_insert_ne in Hk by assumption. eauto.
  - intros k v Hk.
    destruct (run_votes _ _ _ _ _ Hrun) as [E | [[k' E] | [v' E]]];
      rewrite E in Hk; [eauto | |].
    + destruct (decide (k' = k)) as [->|Hne].
      * now rewrite lookup_delete_eq in Hk.
      * rewrite lookup_delete_ne in Hk by assumption. eauto.
    + destruct (decide (voteDocId (JS.interpolate (Vote.sessionId v')) (Vote.userId v')
                          (Vote.restaurantId v') = k)) as [<-|Hne].
      * rewrite lookup_insert_eq in Hk. now injection Hk as <-.
      * rewrite lookup_insert_ne in Hk by assumption. eauto.
Qed.

Lemma trace_wellKeyed db past waiting :
  trace (db :: past) waiting -> wellKeyed db.
Proof.
  intros Ht. remember (db :: past) as stores eqn:E. revert db past E.
  induction Ht as [ | db0 past0 waiting s a s' db' Ht IH Hs Ha Hrun
                    | db0 past0 waiting s uid random hostName location s' db'
                        Ht IH Hs Hu Hrun
                    | db0 past0 waiting waiting' p Ht IH ];
    intros db past E; injection E as <- <-.
  - split; intros k x Hk; simpl in Hk; now rewrite lookup_empty in Hk.
  - eapply run_wellKeyed; eauto.
  - exact (IH db0 past0 eq_refl).
  - destruct (IH db0 past0 eq_refl) as [IHp IHv]. split; [|exact IHv].
    intros k q Hk. simpl in Hk.
    destruct (decide (participantDocId (Participant.sessionId p) (Participant.userId p) = k))
      as [<-|Hne].
    + rewrite lookup_insert_eq in Hk. now injection Hk as <-.
    + rewrite lookup_insert_ne in Hk by assumption. eauto.
Qed.

Lemma reachable_wellKeyed db : reachable db -> wellKeyed db.
Proof. intros (past & waiting & Ht). eauto using trace_wellKeyed. Qed.

(** Reachability of a store given as a script of [after] steps. *)
Ltac scripted :=
  repeat apply reachable_after;
  first [ apply reachable_empty | exact I | apply Permutation_refl ].

Lemma demo_lobby_reachable : reachable demo_lobby.
Proof. scripted. Qed.

Lemma demo_voting_reachable : reachable demo_voting.
Proof. scripted. Qed.

Lemma demo_finished_reachable : reachable demo_finished.
Proof. scripted. Qed.







(** ** Session status *)

Lemma phase_range st : 0 <= phase st <= 2.
Proof. destruct st; simpl; lia. Qed.

(** C3 (as amended). In a reachable store, one handler invocation by a
    client that has seen the store moves the status of a session at most
    one phase forward, so [voting] is never skipped. The status moves
    backward in two cases only: [startVoting] on a finished session (back
    to [voting]) and [createSession] drawing the code of an existing
    session (back to [open]); no handler checks the status. It never moves
    backward when the handler is invoked where the app offers it. *)
Theorem status_moves db s a s' db' sid d :
  reachable db -> synced s db -> admissible a ->
  run a s db = Ok (s', db') ->
  Db.sessions db !! sid = Some d ->
  ∃ d',
    Db.sessions db' !! sid = Some d'
    ∧ phase (Session.status d') <= phase (Session.status d) + 1
    ∧ (phase (Session.status d') < phase (Session.status d) ->
       (∃ fetched shuffled,
           a = StartVoting fetched shuffled
           ∧ Session.status d = finished ∧ Session.status d' = voting)
       ∨ (∃ random hostName location,
             a = CreateSession random hostName location
             ∧ generateSessionId random = sid ∧ Session.status d' = open))
    ∧ (asOffered a s db ->
       phase (Session.status d) <= phase (Session.status d')).
Proof.
  intros Hr Hs Ha Hrun Hd.
  pose proof (reachable_open db sid d Hr Hd) as Hopen.
  pose proof (phase_range (Session.status d)) as Hrange.
  run_cases Hrun; simpl;
    try (exists d; conjunctions; [assumption | lia | lia | lia]).
  - (* createSession *)
    destruct (decide (generateSessionId random = sid)) as [E|E].
    + rewrite E, lookup_insert_eq. eexists. split; [reflexivity|]. simpl.
      conjunctions; [lia | | ].
      * intros _. right. eexists _, _, _.
        conjunctions; [reflexivity | assumption | reflexivity].
      * intros Hfree. congruence.
    + rewrite lookup_insert_ne by assumption.
      exists d; conjunctions; [assumption | lia | lia | lia].
  - (* startVoting *)
    match goal with
    | Hact : App.active s = Some (_, ?i), Hl : Db.sessions db !! ?i = Some ?d0 |- _ =>
        destruct (decide (i = sid)) as [E|E];
        [ subst i; rewrite Hl in Hd; injection Hd as ->;
          rewrite lookup_insert_eq; eexists; split; [reflexivity|]; simpl;
          conjunctions;
          [ lia
          | intros Hback; left; exists fetched, shuffled;
            conjunctions; [reflexivity | destruct (Session.status d); simpl in *; (reflexivity || lia) | reflexivity]
          | intros Hoff; unfold offersStartVoting in Hoff;
            unfold synced in Hs; rewrite Hact, Hl in Hs; simpl in Hs;
            destruct Hs as (_ & _ & _ & Hview);
            destruct (Session.status d); simpl; [lia | | ];
            rewrite Hview in Hoff; discriminate ]
        | rewrite lookup_insert_ne by assumption;
          exists d; conjunctions; [assumption | lia | lia | lia] ]
    end.
  - (* endVoting *)
    match goal with
    | Hact : App.active _ = Some (_, ?i), Hdata : App.sessionData _ = Some _,
      Hl : Db.sessions db !! ?i = Some ?d0, Hres : resolve _ _ = Ok (Some ?w) |- _ =>
        destruct (synced_sessionData _ _ _ _ _ _ Hs Hact Hdata) as [-> Hl'];
        rewrite Hl in Hl'; injection Hl' as <-;
        apply resolve_In in Hres;
        destruct (decide (i = sid)) as [E|E];
        [ subst i; rewrite Hl in Hd; injection Hd as ->;
          rewrite lookup_insert_eq; eexists; split; [reflexivity|]; simpl;
          assert (Hnot : Session.status d ≠ open)
            by (intros Eo; rewrite (Hopen Eo) in Hres; destruct Hres);
          destruct (Session.status d); simpl in *; conjunctions; (lia || congruence)
        | rewrite lookup_insert_ne by assumption;
          exists d; conjunctions; [assumption | lia | lia | lia] ]
    end.
Qed.

(** C3, as stated, fails: in the sample run the session is finished, and
    [startVoting], invoked once more by a client that has seen this, sets
    its status back to [voting]. *)
Lemma status_moves_back :
  reachable demo_finished
  ∧ Session.status <$> Db.sessions demo_finished !! "41IOTI" = Some finished
  ∧ Session.status
      <$> Db.sessions
            (after "h" (Some "41IOTI") (StartVoting None MOCK_RESTAURANTS) demo_finished)
          !! "41IOTI"
    = Some voting.
Proof.
  split; [apply demo_finished_reachable|]. split; vm_compute; reflexivity.
Qed.

Lemma status_moves_witness :
  ∃ d d',
    Db.sessions demo_lobby !! "41IOTI" = Some d
    ∧ Db.sessions demo_voting !! "41IOTI" = Some d'
    ∧ phase (Session.status d') <= phase (Session.status d) + 1.
Proof.
  destruct (run (StartVoting None MOCK_RESTAURANTS)
              (sync demo_lobby (client "h" (Some "41IOTI"))) demo_lobby)
    as [[s' db']|] eqn:Hrun; [|vm_compute in Hrun; discriminate].
  destruct (Db.sessions demo_lobby !! "41IOTI") as [d|] eqn:Hd;
    [|vm_compute in Hd; discriminate].
  destruct (status_moves demo_lobby _ (StartVoting None MOCK_RESTAURANTS) s' db'
              "41IOTI" d demo_lobby_reachable
              (synced_sync _ _ _) (Permutation_refl _) Hrun Hd)
    as (d' & Hd' & Hstep & _).
  exists d, d'. conjunctions; [reflexivity | | assumption].
  unfold demo_voting, after. now rewrite Hrun.
Defined.

(** ** Host and phase checks *)

Lemma active_inv s uid sid :
  App.active s = Some (uid, sid) ->
  App.user s = Some uid ∧ App.sessionId s = Some sid ∧ JS.falsy sid = false.
Proof.
  unfold App.active. destruct (App.user s), (App.sessionId s) as [i|]; try discriminate.
  destruct (JS.falsy i) eqn:E; [discriminate|]. now intros [= -> ->].
Qed.

(** C4 (as amended). [startVoting] makes no host check and there is no
    NotHost error: invoked by a client whose uid differs from the
    session's [hostId], it succeeds and writes the status [voting] and the
    selected candidates. What keeps other clients from starting the vote
    is the Lobby, which does not show them the start button. *)
Theorem startVoting_by_non_host s db uid sid d fetched shuffled :
  synced s db ->
  App.active s = Some (uid, sid) ->
  Db.sessions db !! sid = Some d ->
  uid ≠ Session.hostId d ->
  (∃ s',
      startVoting fetched shuffled s db
      = Ok (s', Db.mk (<[sid := Session.mk (Session.hostId d) (Session.location d)
                                   voting (selected fetched shuffled)
                                   (Session.winner d)]> (Db.sessions db))
                      (Db.participants db) (Db.votes db)))
  ∧ offersStartVoting s = false.
Proof.
  intros Hs Hact Hd Hne.
  assert (Hdata : App.sessionData s = Some (sid, d)).
  { unfold synced in Hs. rewrite Hact, Hd in Hs. tauto. }
  split.
  - unfold startVoting, updateSession. rewrite Hact, Hdata, Hd. simpl. eauto.
  - unfold offersStartVoting. rewrite Hdata.
    destruct (active_inv _ _ _ Hact) as (-> & _ & _).
    destruct (App.view s); try reflexivity.
    assert (E : String.eqb (Session.hostId d) uid = false)
      by (apply String.eqb_neq; congruence).
    simpl. now rewrite E.
Qed.

Lemma startVoting_by_non_host_witness :
  ∃ s', startVoting None MOCK_RESTAURANTS
          (sync demo_lobby (client "b" (Some "41IOTI"))) demo_lobby
        = Ok (s', demo_voting).
Proof.
  destruct (Db.sessions demo_lobby !! "41IOTI") as [d|] eqn:Hd;
    [|vm_compute in Hd; discriminate].
  destruct (startVoting_by_non_host
              (sync demo_lobby (client "b" (Some "41IOTI"))) demo_lobby
              "b" "41IOTI" d None MOCK_RESTAURANTS)
    as [[s' Hrun] _].
  - apply synced_sync.
  - reflexivity.
  - exact Hd.
  - vm_compute in Hd. injection Hd as <-. discriminate.
  - exists s'. rewrite Hrun. f_equal. f_equal.
    vm_compute in Hd. injection Hd as <-. vm_compute. reflexivity.
Defined.

(** C4, as stated, fails: in the sample run Bo ("b") is not the host
    ("h"), yet his [startVoting] on the open session succeeds and leaves
    it in status [voting]. *)
Lemma startVoting_by_non_host_succeeds :
  reachable demo_lobby
  ∧ Session.hostId <$> Db.sessions demo_lobby !! "41IOTI" = Some "h"
  ∧ Session.status <$> Db.sessions demo_lobby !! "41IOTI" = Some open
  ∧ (∃ r, run (StartVoting None MOCK_RESTAURANTS)
            (sync demo_lobby (client "b" (Some "41IOTI"))) demo_lobby = Ok r)
  ∧ Session.status
      <$> Db.sessions
            (after "b" (Some "41IOTI") (StartVoting None MOCK_RESTAURANTS) demo_lobby)
          !! "41IOTI"
    = Some voting.
Proof.
  split; [apply demo_lobby_reachable|].
  conjunctions; try (vm_compute; reflexivity).
  eexists. vm_compute. reflexivity.
Qed.

(** ** Participants *)

(** The snapshot of a client that has seen the store finds the record of
    its user in its session. *)
Lemma currentPart_synced s db uid sid p :
  wellKeyed db -> synced s db ->
  App.active s = Some (uid, sid) ->
  Db.participants db !! participantDocId sid uid = Some p ->
  Participant.sessionId p = sid -> Participant.userId p = uid ->
  currentPart uid s = Some p.
Proof.
  intros [Hkeys _] Hs Hact Hp Hsid Huid.
  unfold synced in Hs. rewrite Hact in Hs. destruct Hs as (_ & Hperm & _).
  unfold currentPart.
  destruct (List.find _ (App.participants s)) as [p'|] eqn:Hf.
  - apply List.find_some in Hf as [Hin He]. apply String.eqb_eq in He.
    apply (Permutation_in _ Hperm), participantsOf_In in Hin as [k [Hk Hs']].
    rewrite (Hkeys _ _ Hk), Hs', He in Hk. congruence.
  - assert (Hin : In p (App.participants s)).
    { apply (Permutation_in _ (Permutation_sym Hperm)), participantsOf_In. eauto. }
    apply (List.find_none _ _ Hf) in Hin. rewrite Huid, String.eqb_refl in Hin.
    discriminate.
Qed.

(** C7 (as amended). [submitPreference] makes no status check and there
    is no SessionNotOpen error: the call of a signed-in client with a
    session id succeeds whatever the store holds, leaves sessions and
    votes as they are, and writes under the key of the caller the record
    with the text as preference and with the name and host flag of the
    caller's record in the participants snapshot of the client: the name
    "User" when that name is empty, and the name "User" and no host flag
    when the snapshot holds no record of the caller. So the stored name
    and host flag are kept when the client has seen the store and the
    stored name is not empty. *)
Theorem submitPreference_in_any_status db s uid sid prefText :
  App.active s = Some (uid, sid) ->
  ∃ name isHost,
    submitPreference prefText s db
    = Ok (s, Db.mk (Db.sessions db)
               (<[participantDocId sid uid
                  := Participant.mk sid uid name prefText isHost]>
                  (Db.participants db))
               (Db.votes db))
    ∧ match currentPart uid s with
      | Some cur =>
          name = (if JS.falsy (Participant.name cur) then "User"
                  else Participant.name cur)
          ∧ isHost = Participant.isHost cur
      | None => name = "User" ∧ isHost = false
      end
    ∧ ∀ p,
        reachable db -> synced s db ->
        Db.participants db !! participantDocId sid uid = Some p ->
        Participant.sessionId p = sid -> Participant.userId p = uid ->
        JS.falsy (Participant.name p) = false ->
        name = Participant.name p ∧ isHost = Participant.isHost p.
Proof.
  intros Hact. unfold submitPreference. rewrite Hact.
  eexists _, _. split; [reflexivity|]. split.
  - destruct (currentPart uid s) as [cur|]; simpl; auto.
  - intros p Hr Hs Hp Hsid Huid Hname.
    rewrite (currentPart_synced s db uid sid p (reachable_wellKeyed db Hr)
               Hs Hact Hp Hsid Huid).
    simpl. now rewrite Hname.
Qed.

Lemma submitPreference_in_any_status_witness :
  submitPreference "sushi" (sync demo_voting (client "b" (Some "41IOTI"))) demo_voting
  = Ok (sync demo_voting (client "b" (Some "41IOTI")),
        Db.mk (Db.sessions demo_voting)
          (<["41IOTI_b" := Participant.mk "41IOTI" "b" "Bo" "sushi" false]>
             (Db.participants demo_voting))
          (Db.votes demo_voting)).
Proof.
  destruct (submitPreference_in_any_status demo_voting
              (sync demo_voting (client "b" (Some "41IOTI"))) "b" "41IOTI" "sushi"
              eq_refl)
    as (name & isHost & Hrun & _ & Hkept).
  destruct (Hkept (Participant.mk "41IOTI" "b" "Bo" "tacos" false))
    as [-> ->];
    [ apply demo_voting_reachable | apply synced_sync | vm_compute; reflexivity
    | reflexivity | reflexivity | reflexivity | ].
  exact Hrun.
Defined.

(** C7, as stated, fails: in the sample run the session is in status
    [voting] and Bo's preference is "tacos"; his [submitPreference] then
    succeeds and the stored preference becomes "sushi". *)
Lemma submitPreference_while_voting :
  reachable demo_voting
  ∧ Session.status <$> Db.sessions demo_voting !! "41IOTI" = Some voting
  ∧ Participant.preference <$> Db.participants demo_voting !! "41IOTI_b" = Some "tacos"
  ∧ (∃ r, run (SubmitPreference "sushi")
            (sync demo_voting (client "b" (Some "41IOTI"))) demo_voting = Ok r)
  ∧ Participant.preference
      <$> Db.participants
            (after "b" (Some "41IOTI") (SubmitPreference "sushi") demo_voting)
          !! "41IOTI_b"
    = Some "sushi".
Proof.
  split; [apply demo_voting_reachable|].
  conjunctions; try (vm_compute; reflexivity).
  eexists. vm_compute. reflexivity.
Qed.

(** C8 (as amended). [joinSession] never fails and never looks at an
    existing record: it stores a fresh record with the name given, the
    empty preference and [isHost = false] under the key of the user in the
    session. On a record of the same user with the same name this is a
    no-op exactly when that record had the empty preference and was not
    the host's. *)
Theorem joinSession_overwrites db s uid participantName sid :
  App.user s = Some uid ->
  ∃ s' db',
    joinSession participantName sid s db = Ok (s', db')
    ∧ Db.participants db' !! participantDocId sid uid
      = Some (Participant.mk sid uid participantName "" false)
    ∧ ∀ p,
        Db.participants db !! participantDocId sid uid = Some p ->
        Participant.sessionId p = sid -> Participant.userId p = uid ->
        Participant.name p = participantName ->
        (db' = db <-> Participant.preference p = "" ∧ Participant.isHost p = false).
Proof.
  intros Hu. unfold joinSession. rewrite Hu. eexists _, _.
  split; [reflexivity|]. simpl. split; [apply lookup_insert_eq|].
  intros p Hp Hsid Huid Hname. split.
  - intros E. apply (f_equal Db.participants) in E. simpl in E.
    apply (f_equal (fun m => m !! participantDocId sid uid)) in E.
    rewrite lookup_insert_eq, Hp in E. injection E as <-. auto.
  - intros [Hpref Hhost]. destruct db as [ss ps vs]. simpl in *. f_equal.
    apply insert_id. rewrite Hp. f_equal.
    destruct p; simpl in *; congruence.
Qed.

Lemma joinSession_overwrites_witness :
  ∃ s' db',
    joinSession "Bo" "41IOTI" (sync demo_lobby (client "b" (Some "41IOTI"))) demo_lobby
    = Ok (s', db')
    ∧ Db.participants db' !! "41IOTI_b" = Some (Participant.mk "41IOTI" "b" "Bo" "" false).
Proof.
  destruct (joinSession_overwrites demo_lobby
              (sync demo_lobby (client "b" (Some "41IOTI"))) "b" "Bo" "41IOTI")
    as (s' & db' & Hrun & Hp & _); [reflexivity|].
  exists s', db'. split; assumption.
Defined.

(** C8, as stated, fails: in the sample run Bo has joined and entered the
    preference "tacos"; joining again under the same name succeeds and
    resets his stored preference to the empty string. *)
Lemma joinSession_again_resets :
  reachable demo_lobby
  ∧ Db.participants demo_lobby !! "41IOTI_b"
    = Some (Participant.mk "41IOTI" "b" "Bo" "tacos" false)
  ∧ Db.participants (after "b" (Some "41IOTI") (JoinSession "Bo" "41IOTI") demo_lobby)
      !! "41IOTI_b"
    = Some (Participant.mk "41IOTI" "b" "Bo" "" false).
Proof.
  split; [apply demo_lobby_reachable|].
  split; vm_compute; reflexivity.
Qed.

(** ** Votes *)

(** Two keys with underscore-free session and user ids spell the same
    document id only when they are the same key. *)
Lemma underscore_split a a' r r' :
  noUnderscore a = true -> noUnderscore a' = true ->
  a +:+ "_" +:+ r = a' +:+ "_" +:+ r' -> a = a' ∧ r = r'.
Proof.
  assert (Hnil : ∀ x, "" +:+ x = x) by reflexivity.
  assert (Hcons : ∀ c x y, String c x +:+ y = String c (x +:+ y)) by reflexivity.
  revert a'. induction a as [|c a IH]; intros [|c' a'] Ha Ha' E;
    rewrite ?Hcons, ?Hnil in E; simpl in Ha, Ha'.
  - injection E as ->. auto.
  - injection E as <- _. discriminate.
  - injection E as -> _. discriminate.
  - injection E as -> E.
    apply andb_true_iff in Ha as [_ Ha], Ha' as [_ Ha'].
    destruct (IH a' Ha Ha' E) as [-> ->]. auto.
Qed.

Lemma voteDocId_inj sid uid rid sid' uid' rid' :
  noUnderscore sid = true -> noUnderscore uid = true ->
  noUnderscore sid' = true -> noUnderscore uid' = true ->
  voteDocId sid uid rid = voteDocId sid' uid' rid' ->
  (sid, uid, rid) = (sid', uid', rid').
Proof.
  intros Hs Hu Hs' Hu' E. unfold voteDocId in E.
  apply underscore_split in E as [-> E]; [|assumption..].
  apply underscore_split in E as [-> ->]; [|assumption..].
  reflexivity.
Qed.

(** C6 (as amended). A user who holds no vote for a candidate and
    toggles twice, each time having seen the store: the first call takes
    the [setDoc] branch (added) and stores the vote, the second takes the
    [deleteDoc] branch (removed). No document is then left under the id
    of the vote, and every other document is as before the first call.
    The store is the one before the first call exactly when that id was
    free, which it is when no session id and no user id, of the client or
    of a stored vote, contains an underscore. *)
Theorem onVote_twice db s uid sid rid :
  reachable db -> synced s db ->
  App.active s = Some (uid, sid) ->
  (∀ v, In v (votesOf db sid) ->
        Vote.userId v = uid -> Vote.restaurantId v ≠ rid) ->
  ∃ db1,
    onVote rid s db = Ok (added, s, db1)
    ∧ Db.votes db1 !! voteDocId sid uid rid = Some (Vote.mk (Some sid) uid rid)
    ∧ ∀ s1,
        synced s1 db1 -> App.active s1 = Some (uid, sid) ->
        ∃ db2,
          onVote rid s1 db1 = Ok (removed, s1, db2)
          ∧ Db.votes db2 !! voteDocId sid uid rid = None
          ∧ Db.sessions db2 = Db.sessions db
          ∧ Db.participants db2 = Db.participants db
          ∧ (∀ k, k ≠ voteDocId sid uid rid ->
                  Db.votes db2 !! k = Db.votes db !! k)
          ∧ (db2 = db <-> Db.votes db !! voteDocId sid uid rid = None)
          ∧ (noUnderscore sid = true -> noUnderscore uid = true ->
             underscoreFree db -> db2 = db).
Proof.
  intros Hr Hs Hact Hnone.
  destruct (reachable_wellKeyed db Hr) as [_ Hkeys].
  destruct (active_inv _ _ _ Hact) as (Hu & Hsid & _).
  assert (Hex : existing uid rid s = None).
  { unfold existing.
    destruct (List.find _ (App.votes s)) as [v|] eqn:Hf; [|reflexivity].
    apply List.find_some in Hf as [Hin He].
    apply andb_true_iff in He as [Eu Er].
    apply String.eqb_eq in Eu, Er.
    unfold synced in Hs. rewrite Hact in Hs. destruct Hs as (_ & _ & Hperm & _).
    apply (Permutation_in _ Hperm) in Hin. now destruct (Hnone v Hin Eu). }
  eexists. split; [|split].
  - unfold onVote. rewrite Hu, Hex, Hsid. reflexivity.
  - simpl. apply lookup_insert_eq.
  - intros s1 Hs1 Hact1.
    destruct (active_inv _ _ _ Hact1) as (Hu1 & Hsid1 & _).
    assert (Hex1 : ∃ v, existing uid rid s1 = Some v).
    { unfold existing.
      destruct (List.find _ (App.votes s1)) as [v|] eqn:Hf; [eauto|].
      exfalso.
      assert (Hin : In (Vote.mk (Some sid) uid rid) (App.votes s1)).
      { unfold synced in Hs1. rewrite Hact1 in Hs1.
        destruct Hs1 as (_ & _ & Hperm & _).
        apply (Permutation_in _ (Permutation_sym Hperm)), votesOf_In.
        eexists. split; [apply lookup_insert_eq | reflexivity]. }
      apply (List.find_none _ _ Hf) in Hin. simpl in Hin.
      rewrite !String.eqb_refl in Hin. discriminate. }
    destruct Hex1 as [v Hex1].
    assert (Hback : Db.votes db !! voteDocId sid uid rid = None ->
              Db.mk (Db.sessions db) (Db.participants db)
                (delete (voteDocId sid uid rid)
                   (<[voteDocId sid uid rid := Vote.mk (Some sid) uid rid]>
                      (Db.votes db)))
              = db).
    { intros Hfree. rewrite delete_insert_id by assumption. now destruct db. }
    eexists. split; [unfold onVote; rewrite Hu1, Hex1, Hsid1; reflexivity|].
    simpl. conjunctions; auto.
    + apply lookup_delete_eq.
    + intros k Hk. now rewrite lookup_delete_ne, lookup_insert_ne.
    + split; [|exact Hback].
      intros E. apply (f_equal (fun d => Db.votes d !! voteDocId sid uid rid)) in E.
      simpl in E. now rewrite lookup_delete_eq in E.
    + intros Hnsid Hnuid Hfree. apply Hback.
      destruct (Db.votes db !! voteDocId sid uid rid) as [v'|] eqn:Hv'; [|reflexivity].
      exfalso.
      destruct (Hfree _ _ Hv') as [(sid' & Esid' & Hnsid') Hnuid'].
      pose proof (Hkeys _ _ Hv') as Ek. rewrite Esid' in Ek. simpl in Ek.
      apply voteDocId_inj in Ek; [|assumption..].
      injection Ek as -> Euid Erid.
      apply (Hnone v'); [|congruence..].
      apply votesOf_In. eauto.
Qed.

Lemma onVote_twice_witness :
  ∃ db1,
    onVote "r2" (sync demo_voting (client "b" (Some "41IOTI"))) demo_voting
    = Ok (added, sync demo_voting (client "b" (Some "41IOTI")), db1)
    ∧ onVote "r2" (sync db1 (client "b" (Some "41IOTI"))) db1
      = Ok (removed, sync db1 (client "b" (Some "41IOTI")), demo_voting).
Proof.
  assert (Enone : votesOf demo_voting "41IOTI" = []) by (vm_compute; reflexivity).
  destruct (onVote_twice demo_voting (sync demo_voting (client "b" (Some "41IOTI")))
              "b" "41IOTI" "r2")
    as (db1 & Hfirst & _ & Hsecond);
    [ apply demo_voting_reachable | apply synced_sync | reflexivity
    | rewrite Enone; intros v [] | ].
  exists db1. split; [assumption|].
  destruct (Hsecond (sync db1 (client "b" (Some "41IOTI"))))
    as (db2 & Hrun & _ & _ & _ & _ & _ & Hback);
    [apply synced_sync | reflexivity | ].
  rewrite Hrun, Hback; [reflexivity | reflexivity | reflexivity | ].
  intros k v Hv. vm_compute in Hv. discriminate Hv.
Defined.

(** C6, as stated, fails: in the variant with the search, the user "a"
    holds no vote for "b_c" and toggles it twice, each time having seen
    the store. The calls take the [setDoc] and then the [deleteDoc]
    branch on the document 41IOTI_a_b_c, which held the vote of "a_b" for
    "c": that vote is gone, and the votes are not what they were before
    the first call. *)
Lemma onVote_twice_deletes_other_vote :
  reachable search_voted
  ∧ votesOf search_voted "41IOTI" = [Vote.mk (Some "41IOTI") "a_b" "c"]
  ∧ onVote "b_c" (sync search_voted (client "a" (Some "41IOTI"))) search_voted
    = Ok (added, sync search_voted (client "a" (Some "41IOTI")),
          after "a" (Some "41IOTI") (OnVote "b_c") search_voted)
  ∧ onVote "b_c"
      (sync (after "a" (Some "41IOTI") (OnVote "b_c") search_voted)
         (client "a" (Some "41IOTI")))
      (after "a" (Some "41IOTI") (OnVote "b_c") search_voted)
    = Ok (removed,
          sync (after "a" (Some "41IOTI") (OnVote "b_c") search_voted)
            (client "a" (Some "41IOTI")),
          after "a" (Some "41IOTI") (OnVote "b_c")
            (after "a" (Some "41IOTI") (OnVote "b_c") search_voted))
  ∧ votesOf (after "a" (Some "41IOTI") (OnVote "b_c")
               (after "a" (Some "41IOTI") (OnVote "b_c") search_voted)) "41IOTI"
    = [].
Proof.
  split; [scripted|].
  conjunctions; vm_compute; reflexivity.
Qed.

(** C10 (as amended). A toggle by user [uid] on [rid] in session [sid]
    touches nothing but the vote document whose id is
    [`${sid}_${uid}_${rid}`]: sessions, participants and the vote
    documents under every other id stay as they are. The votes under
    every other (session, user, candidate) key stay as they are when
    session and user ids contain no underscore, for then different keys
    spell different document ids. *)
Theorem onVote_frame db s uid sid rid r :
  App.user s = Some uid -> App.sessionId s = Some sid ->
  onVote rid s db = Ok r ->
  Db.sessions (snd r) = Db.sessions db
  ∧ Db.participants (snd r) = Db.participants db
  ∧ (∀ k, k ≠ voteDocId sid uid rid -> Db.votes (snd r) !! k = Db.votes db !! k)
  ∧ (∀ sid' uid' rid',
       noUnderscore sid = true -> noUnderscore uid = true ->
       noUnderscore sid' = true -> noUnderscore uid' = true ->
       (sid', uid', rid') ≠ (sid, uid, rid) ->
       Db.votes (snd r) !! voteDocId sid' uid' rid'
       = Db.votes db !! voteDocId sid' uid' rid').
Proof.
  intros Hu Hsid Hrun.
  assert (Hframe : Db.sessions (snd r) = Db.sessions db
                   ∧ Db.participants (snd r) = Db.participants db
                   ∧ ∀ k, k ≠ voteDocId sid uid rid ->
                          Db.votes (snd r) !! k = Db.votes db !! k).
  { unfold onVote in Hrun. rewrite Hu, Hsid in Hrun. simpl in Hrun.
    destruct (existing uid rid s); injection Hrun as <-; simpl;
      conjunctions; auto; intros k Hk.
    - now apply lookup_delete_ne.
    - now apply lookup_insert_ne. }
  destruct Hframe as (Hss & Hps & Hvs). conjunctions; auto.
  intros sid' uid' rid' H1 H2 H3 H4 Hne. apply Hvs.
  intros E. apply Hne. now apply voteDocId_inj.
Qed.

Lemma onVote_frame_witness :
  ∃ r,
    onVote "r2" (sync demo_voted (client "h" (Some "41IOTI"))) demo_voted = Ok r
    ∧ Db.votes (snd r) !! voteDocId "41IOTI" "b" "r3"
      = Db.votes demo_voted !! voteDocId "41IOTI" "b" "r3".
Proof.
  destruct (onVote "r2" (sync demo_voted (client "h" (Some "41IOTI"))) demo_voted)
    as [r|] eqn:Hrun; [|vm_compute in Hrun; discriminate].
  destruct (onVote_frame demo_voted (sync demo_voted (client "h" (Some "41IOTI")))
              "h" "41IOTI" "r2" r) as (_ & _ & _ & Hkeys);
    [reflexivity | reflexivity | exact Hrun | ].
  exists r. split; [reflexivity|].
  apply Hkeys; try reflexivity. discriminate.
Defined.

(** C10, as stated, fails: the session has the candidates "c" and "b_c",
    and a user with the uid "a_b" holds a vote for "c", stored under
    41IOTI_a_b_c. The user "a" then toggles "b_c": the document id is the
    same, no vote of "a" for "b_c" is found, and [setDoc] replaces the vote
    of "a_b", a record under another (session, user, candidate) key. *)
Lemma onVote_replaces_other_vote :
  reachable search_voted
  ∧ List.map Candidate.id
      <$> (Session.candidates <$> Db.sessions search_voted !! "41IOTI")
    = Some ["c"; "b_c"]
  ∧ ("41IOTI", "a_b", "c") ≠ ("41IOTI", "a", "b_c")
  ∧ votesOf search_voted "41IOTI" = [Vote.mk (Some "41IOTI") "a_b" "c"]
  ∧ votesOf (after "a" (Some "41IOTI") (OnVote "b_c") search_voted) "41IOTI"
    = [Vote.mk (Some "41IOTI") "a" "b_c"].
Proof.
  split; [scripted|].
  conjunctions; try discriminate; vm_compute; reflexivity.
Qed.

(** ** Session codes *)

Lemma digit36_upper d :
  (d < 36)%N -> upperAlnum (JS.upper (digit36 d)) = true.
Proof.
  intros H. destruct d as [|p]; [reflexivity|].
  do 6 (destruct p as [p|p|]; try reflexivity); lia.
Qed.

Lemma fraction36_chars fuel num den :
  (num < den)%N ->
  allChars upperAlnum (JS.toUpperCase (fraction36 fuel num den)) = true.
Proof.
  revert num. induction fuel as [|fuel IH]; intros num H; simpl; [reflexivity|].
  destruct (num =? 0)%N; simpl; [reflexivity|].
  rewrite digit36_upper, IH; [reflexivity | apply N.mod_lt; lia |].
  apply N.Div0.div_lt_upper_bound. lia.
Qed.

Lemma prefix_chars test n s :
  allChars test (JS.toUpperCase s) = true ->
  allChars test (JS.toUpperCase (String.substring 0 n s)) = true.
Proof.
  revert s. induction n as [|n IH]; intros [|a s]; simpl; try reflexivity.
  intros H. apply andb_true_iff in H as [-> H]. simpl. now apply IH.
Qed.

Lemma prefix_length n s :
  (String.length (JS.toUpperCase (String.substring 0 n s)) <= n)%nat.
Proof.
  revert s. induction n as [|n IH]; intros [|a s]; simpl; try lia.
  specialize (IH s). lia.
Qed.

(** X21. What [generateSessionId] does guarantee: at most six characters,
    each a digit or an upper-case letter. *)
Lemma generateSessionId_shape random :
  in_unit_interval random ->
  (String.length (generateSessionId random) <= 6)%nat
  ∧ allChars upperAlnum (generateSessionId random) = true.
Proof.
  intros H. unfold generateSessionId, toString36, JS.substring.
  destruct (mant random =? 0)%N; [split; [simpl; lia | reflexivity]|].
  change ("0." +:+ ?x) with (String "0" (String "." x)).
  change (String.substring 2 (8 - 2) (String "0" (String "." ?x)))
    with (String.substring 0 6 x).
  split; [apply prefix_length | apply prefix_chars, fraction36_chars, H].
Qed.

(** C9 fails on the code for the random number 1/2, which
    [Math.random()] can return: its base-36 form is "0.i", and the
    session code is the single character "I". *)
Theorem generateSessionId_half :
  in_unit_interval {| mant := 1; expo := 1 |}
  ∧ toString36 {| mant := 1; expo := 1 |} = "0.i"
  ∧ generateSessionId {| mant := 1; expo := 1 |} = "I"
  ∧ String.length (generateSessionId {| mant := 1; expo := 1 |}) ≠ 6%nat.
Proof.
  conjunctions; try reflexivity. discriminate.
Qed.

(** * Further properties of the code *)

(** ** The tally, whatever the ids *)

Lemma get_set {V : Type} k k' (v : V) o :
  JS.get k (JS.set k' v o) = if String.eqb k k' then Some v else JS.get k o.
Proof.
  induction o as [|[k1 v1] o IH]; simpl; [reflexivity|].
  destruct (String.eqb_spec k' k1) as [->|Hne]; simpl.
  - now destruct (String.eqb k k1).
  - rewrite IH. destruct (String.eqb_spec k k1) as [->|_]; [|reflexivity].
    destruct (String.eqb_spec k1 k'); [congruence | reflexivity].
Qed.

Lemma votesFor_perm rid votes votes' :
  votes ≡ₚ votes' -> votesFor rid votes = votesFor rid votes'.
Proof.
  intros Hp. unfold votesFor. f_equal.
  induction Hp; simpl; repeat destruct (String.eqb _ rid); simpl; lia.
Qed.

(** The entry of a key in the tally, read off the number of votes for it. *)
Lemma get_tally votes k :
  JS.get k (tally votes)
  = if votesFor k votes =? 0 then None
    else if JS.inherited k
         then (if String.eqb k "__proto__" then None else Some Str)
         else Some (Num (votesFor k votes)).
Proof.
  induction votes as [|v votes IH] using rev_ind; [reflexivity|].
  rewrite tally_snoc, votesFor_app, votesFor_one.
  set (rid := Vote.restaurantId v).
  pose proof (votesFor_nonneg k votes) as Hn.
  assert (Hother : String.eqb k rid = false ->
                   JS.get k (bump (tally votes) rid) = JS.get k (tally votes)).
  { intros E. unfold bump.
    destruct (JS.get rid (tally votes)) as [[n|]|]; rewrite ?get_set, ?E; try reflexivity.
    destruct (JS.inherited rid); [destruct (String.eqb rid "__proto__")|];
      rewrite ?get_set, ?E; reflexivity. }
  destruct (String.eqb_spec rid k) as [->|Hne].
  - unfold bump. rewrite IH.
    destruct (Z.eqb_spec (votesFor k votes) 0) as [E0|E0].
    + rewrite E0. simpl.
      destruct (JS.inherited k); [destruct (String.eqb k "__proto__") eqn:Ep|].
      * exact IH.
      * now rewrite get_set, String.eqb_refl.
      * now rewrite get_set, String.eqb_refl.
    + destruct (Z.eqb_spec (votesFor k votes + 1) 0) as [E1|_]; [lia|].
      destruct (JS.inherited k); [destruct (String.eqb k "__proto__") eqn:Ep|].
      * exact IH.
      * now rewrite get_set, String.eqb_refl.
      * rewrite get_set, String.eqb_refl.
        destruct (Z.eqb_spec (votesFor k votes) 0); [lia | reflexivity].
  - rewrite Hother by (apply String.eqb_neq; congruence).
    now rewrite IH, Z.add_0_r.
Qed.

(** X1. The count the tally holds for an id that is no inherited member is
    the number of votes for it, and the entry of every key is the same for
    every order of the votes. *)
Theorem tally_counts_votes votes votes' :
  votes ≡ₚ votes' ->
  (∀ k, JS.inherited k = false ->
        JS.get k (tally votes)
        = if votesFor k votes =? 0 then None else Some (Num (votesFor k votes)))
  ∧ (∀ k, JS.get k (tally votes') = JS.get k (tally votes)).
Proof.
  intros Hp. split.
  - intros k Hk. now rewrite get_tally, Hk.
  - intros k. now rewrite !get_tally, (votesFor_perm k _ _ Hp).
Qed.

Lemma tally_counts_votes_witness :
  JS.get "r3" (tally [Vote.mk (Some "41IOTI") "u1" "r3"; Vote.mk (Some "41IOTI") "u2" "r2";
                      Vote.mk (Some "41IOTI") "u2" "r3"])
  = JS.get "r3" (tally [Vote.mk (Some "41IOTI") "u2" "r2"; Vote.mk (Some "41IOTI") "u1" "r3";
                        Vote.mk (Some "41IOTI") "u2" "r3"]).
Proof.
  apply (tally_counts_votes
           [Vote.mk (Some "41IOTI") "u2" "r2"; Vote.mk (Some "41IOTI") "u1" "r3";
            Vote.mk (Some "41IOTI") "u2" "r3"]
           [Vote.mk (Some "41IOTI") "u1" "r3"; Vote.mk (Some "41IOTI") "u2" "r2";
            Vote.mk (Some "41IOTI") "u2" "r3"]).
  apply perm_swap.
Defined.

(** ** The winner, read off the counts *)

(** With votes on plain ids, the [winnerId] of [endVoting] is an id with
    the most votes; the candidates play no part in it. *)
Lemma winnerId_leader candidates votes :
  votes ≠ [] ->
  (∀ v, In v votes -> plainKey (Vote.restaurantId v)) ->
  ∃ k,
    winnerId candidates votes = Ok k
    ∧ (∃ v, In v votes ∧ Vote.restaurantId v = k)
    ∧ ∀ rid, votesFor rid votes <= votesFor k votes.
Proof.
  intros Hne Hplain.
  assert (Htally : tally votes
            = List.map (fun k => (k, Num (votesFor k votes))) (firstSeen votes))
    by (apply tally_closed; intros v Hv; now apply Hplain).
  assert (Hval : ∀ k c, In (k, Num c) (JS.entries (tally votes)) ->
            In k (firstSeen votes) ∧ c = votesFor k votes).
  { intros k c He. apply (proj1 (entries_In _ _)) in He. rewrite Htally in He.
    apply in_map_iff in He as [k' [[= -> ->] Hk]]. auto. }
  assert (Hmem : ∀ k, In k (firstSeen votes) ->
            In (k, Num (votesFor k votes)) (JS.entries (tally votes))).
  { intros k Hk. apply (proj2 (entries_In _ _)). rewrite Htally.
    apply in_map_iff. eauto. }
  destruct votes as [|v0 votes0] eqn:Evotes; [congruence|]. rewrite <- Evotes in *.
  assert (Hv0 : In (Vote.restaurantId v0) (firstSeen votes))
    by (rewrite Evotes; now left).
  destruct (leader_scan (JS.entries (tally votes)) None (-1))
    as [[_ Hle] | (before & k & c & after & Hes & Hfold & _ & Hb & Ha)].
  { exfalso. pose proof (proj1 (votesFor_pos _ _) Hv0) as Hpos.
    specialize (Hle _ _ (Hmem _ Hv0) eq_refl). lia. }
  assert (Hk : In (k, Num c) (JS.entries (tally votes)))
    by (rewrite Hes; apply in_or_app; right; now left).
  destruct (Hval _ _ Hk) as [Hkin ->].
  apply firstSeen_In in Hkin as [vk [Hvk Hrid]].
  destruct (Hplain _ Hvk) as [Hfalsy _]. rewrite Hrid in Hfalsy.
  exists k. conjunctions; [|eauto|].
  - unfold winnerId. rewrite Evotes at 1. rewrite Hfold. simpl. now rewrite Hfalsy.
  - intros rid.
    destruct (Z.eq_dec (votesFor rid votes) 0) as [E|E];
      [rewrite E; apply votesFor_nonneg|].
    assert (Hin : In rid (firstSeen votes))
      by (apply votesFor_pos; pose proof (votesFor_nonneg rid votes); lia).
    apply Hmem in Hin. rewrite Hes in Hin.
    apply in_app_or in Hin as [He|[He|He]].
    + specialize (Hb _ _ He eq_refl). lia.
    + injection He as -> _. lia.
    + exact (Ha _ _ He eq_refl).
Qed.


Lemma votesFor_cons rid v votes :
  votesFor rid (v :: votes)
  = (if String.eqb (Vote.restaurantId v) rid then 1 else 0) + votesFor rid votes.
Proof. now rewrite <- votesFor_one, <- votesFor_app. Qed.

Lemma String_neq a s : String a s ≠ s.
Proof.
  revert a. induction s as [|b s IH]; intros a E; [discriminate|].
  injection E as -> E. exact (IH b E).
Qed.

Lemma plain_perm votes votes' :
  votes ≡ₚ votes' ->
  (∀ v, In v votes -> plainKey (Vote.restaurantId v)) ->
  ∀ v, In v votes' -> plainKey (Vote.restaurantId v).
Proof.
  intros Hp H v Hv. apply H. now apply (Permutation_in _ (Permutation_sym Hp)).
Qed.

(** X2. With every vote on a plain id (not empty, no member inherited from
    [Object.prototype]): when one id has strictly more votes than every
    other, [endVoting] resolves by that id, whatever the order of the
    votes in the array; that order matters on ties only. *)
Theorem resolve_strict_leader candidates votes votes' k :
  votes ≡ₚ votes' ->
  (∀ v, In v votes -> plainKey (Vote.restaurantId v)) ->
  (∀ k', k' ≠ k -> votesFor k' votes < votesFor k votes) ->
  winnerId candidates votes = Ok k
  ∧ resolve candidates votes = Ok (pick candidates k)
  ∧ resolve candidates votes' = resolve candidates votes.
Proof.
  intros Hp Hplain Hstrict.
  assert (Hne : votes ≠ []).
  { intros ->. specialize (Hstrict (String "x" k)).
    rewrite !votesFor_nil in Hstrict. apply (Z.lt_irrefl 0), Hstrict.
    apply String_neq. }
  assert (Hne' : votes' ≠ [])
    by (intros ->; apply Permutation_sym, Permutation_nil in Hp; congruence).
  destruct (winnerId_leader candidates votes Hne Hplain) as (k1 & Hw1 & _ & Hmax1).
  destruct (winnerId_leader candidates votes' Hne' (plain_perm _ _ Hp Hplain))
    as (k2 & Hw2 & _ & Hmax2).
  assert (E1 : k1 = k).
  { destruct (string_dec k1 k) as [E|E]; [assumption|].
    specialize (Hstrict k1 E). specialize (Hmax1 k). lia. }
  assert (E2 : k2 = k).
  { destruct (string_dec k2 k) as [E|E]; [assumption|].
    specialize (Hstrict k2 E). specialize (Hmax2 k).
    rewrite <- !(votesFor_perm _ _ _ Hp) in Hmax2. lia. }
  subst k1 k2. unfold resolve. rewrite Hw1, Hw2. auto.
Qed.

Lemma resolve_strict_leader_witness :
  resolve MOCK_RESTAURANTS
    [Vote.mk (Some "41IOTI") "u2" "r3"; Vote.mk (Some "41IOTI") "u1" "r2";
     Vote.mk (Some "41IOTI") "u1" "r3"]
  = resolve MOCK_RESTAURANTS
      [Vote.mk (Some "41IOTI") "u1" "r2"; Vote.mk (Some "41IOTI") "u2" "r3";
       Vote.mk (Some "41IOTI") "u1" "r3"].
Proof.
  apply (resolve_strict_leader MOCK_RESTAURANTS
           [Vote.mk (Some "41IOTI") "u1" "r2"; Vote.mk (Some "41IOTI") "u2" "r3";
            Vote.mk (Some "41IOTI") "u1" "r3"]
           [Vote.mk (Some "41IOTI") "u2" "r3"; Vote.mk (Some "41IOTI") "u1" "r2";
            Vote.mk (Some "41IOTI") "u1" "r3"] "r3").
  - apply perm_swap.
  - intros v [<-|[<-|[<-|[]]]]; split; reflexivity.
  - intros k' Hk'. rewrite !votesFor_cons, !votesFor_nil.
    cbn [Vote.restaurantId]. rewrite String.eqb_refl.
    change (String.eqb "r2" "r3") with false.
    destruct (String.eqb_spec "r3" k') as [E|_]; [congruence|].
    destruct (String.eqb "r2" k'); lia.
Defined.



(** ** The cards of the [Voting] view *)

Lemma maxVotes_map (f : string -> Z) keys :
  ∃ m,
    maxVotes (List.map (fun k => (k, Num (f k))) keys) = Some m
    ∧ 0 <= m
    ∧ (∀ k, In k keys -> f k <= m)
    ∧ (m = 0 ∨ ∃ k, In k keys ∧ f k = m).
Proof.
  induction keys as [|k keys (m & Hm & H0 & Hle & Hex)]; simpl.
  - exists 0. split; [reflexivity|]. split; [lia|]. split; [intros k []|now left].
  - rewrite Hm. simpl. exists (Z.max (f k) m). conjunctions; [reflexivity | lia | |].
    + intros k' [<-|Hk']; [lia|]. specialize (Hle _ Hk'). lia.
    + destruct (Z.max_spec (f k) m) as [[_ ->]|[_ ->]].
      * destruct Hex as [->|[k' [Hk' E]]]; [now left | right; eauto].
      * right. eauto.
Qed.

Lemma maxVotes_tally votes :
  (∀ v, In v votes -> JS.inherited (Vote.restaurantId v) = false) ->
  ∃ m,
    maxVotes (tally votes) = Some m
    ∧ (∀ k, votesFor k votes <= m)
    ∧ (m = 0 ∨ ∃ k, votesFor k votes = m).
Proof.
  intros Hplain. rewrite (tally_closed votes Hplain).
  destruct (maxVotes_map (fun k => votesFor k votes) (firstSeen votes))
    as (m & Hm & H0 & Hle & Hex).
  exists m. conjunctions; [assumption | |].
  - intros k. destruct (Z.eq_dec (votesFor k votes) 0) as [E|E]; [lia|].
    apply Hle, votesFor_pos. pose proof (votesFor_nonneg k votes). lia.
  - destruct Hex as [->|[k [_ E]]]; eauto.
Qed.

Lemma shownCount_tally votes rid :
  JS.inherited rid = false ->
  shownCount (tally votes) rid = Num (votesFor rid votes).
Proof.
  intros Hrid. unfold shownCount. rewrite get_tally, Hrid.
  destruct (Z.eqb_spec (votesFor rid votes) 0) as [->|E]; [reflexivity|].
  destruct (Z.eqb_spec (votesFor rid votes) 0); [contradiction | reflexivity].
Qed.

(** X4. When no vote is on the name of a member inherited from
    [Object.prototype], and the id of the card is no such name either: the
    card shows the LEADING badge exactly when its restaurant has at least
    one vote and no id has more. *)
Theorem isLeading_most_votes votes rid :
  (∀ v, In v votes -> JS.inherited (Vote.restaurantId v) = false) ->
  JS.inherited rid = false ->
  isLeading (voteCounts votes) rid = true
  <-> 0 < votesFor rid votes ∧ ∀ k, votesFor k votes <= votesFor rid votes.
Proof.
  intros Hplain Hrid. unfold isLeading, voteCounts.
  rewrite (shownCount_tally votes rid Hrid).
  destruct (maxVotes_tally votes Hplain) as (m & -> & Hle & Hex).
  rewrite andb_true_iff, Z.ltb_lt, Z.eqb_eq. split.
  - intros [Hpos E]. split; [assumption|]. intros k. rewrite E. apply Hle.
  - intros [Hpos Hmax]. split; [assumption|].
    specialize (Hle rid). destruct Hex as [->|[k <-]]; [lia|].
    specialize (Hmax k). lia.
Qed.

Lemma isLeading_most_votes_witness :
  0 < votesFor "r3" [Vote.mk (Some "41IOTI") "u1" "r2"; Vote.mk (Some "41IOTI") "u2" "r3";
                     Vote.mk (Some "41IOTI") "u1" "r3"]
  ∧ ∀ k, votesFor k [Vote.mk (Some "41IOTI") "u1" "r2"; Vote.mk (Some "41IOTI") "u2" "r3";
                     Vote.mk (Some "41IOTI") "u1" "r3"]
         <= votesFor "r3" [Vote.mk (Some "41IOTI") "u1" "r2";
                           Vote.mk (Some "41IOTI") "u2" "r3";
                           Vote.mk (Some "41IOTI") "u1" "r3"].
Proof.
  apply (proj1 (isLeading_most_votes
                  [Vote.mk (Some "41IOTI") "u1" "r2"; Vote.mk (Some "41IOTI") "u2" "r3";
                   Vote.mk (Some "41IOTI") "u1" "r3"] "r3"
                  ltac:(intros v [<-|[<-|[<-|[]]]]; reflexivity) eq_refl)).
  vm_compute. reflexivity.
Defined.

(** X5. With at least one vote, every vote naming a listed candidate by a
    plain id: the candidate [endVoting] resolves to is one the [Voting]
    view shows as LEADING for the same votes. *)
Theorem winner_isLeading candidates votes :
  votes ≠ [] ->
  votesNameCandidates candidates votes ->
  (∀ v, In v votes -> plainKey (Vote.restaurantId v)) ->
  ∃ w,
    resolve candidates votes = Ok (Some w)
    ∧ isLeading (voteCounts votes) (Candidate.id w) = true.
Proof.
  intros Hne Hnamed Hplain.
  destruct (winnerId_leader candidates votes Hne Hplain)
    as (k & Hw & [v [Hv Hk]] & Hmax).
  destruct (Hnamed _ Hv) as [c Hc]. rewrite Hk in Hc.
  destruct (pick_named candidates k (ex_intro _ c Hc)) as (w & Hpick & _ & Hid).
  exists w. split; [unfold resolve; rewrite Hw; simpl; now rewrite Hpick|].
  assert (Hinh : ∀ v', In v' votes -> JS.inherited (Vote.restaurantId v') = false)
    by (intros v' Hv'; now apply Hplain).
  unfold isLeading, voteCounts. rewrite Hid.
  rewrite shownCount_tally by (rewrite <- Hk; now apply Hinh).
  destruct (maxVotes_tally votes Hinh) as (m & -> & Hle & Hex).
  assert (Hpos : 0 < votesFor k votes)
    by (apply votesFor_pos, firstSeen_In; eauto).
  apply andb_true_iff. rewrite Z.ltb_lt, Z.eqb_eq. split; [assumption|].
  specialize (Hle k). destruct Hex as [->|[k' <-]]; [lia|].
  specialize (Hmax k'). lia.
Qed.

Lemma winner_isLeading_witness :
  ∃ w,
    resolve MOCK_RESTAURANTS
      [Vote.mk (Some "41IOTI") "u1" "r2"; Vote.mk (Some "41IOTI") "u2" "r3"]
    = Ok (Some w)
    ∧ isLeading
        (voteCounts [Vote.mk (Some "41IOTI") "u1" "r2"; Vote.mk (Some "41IOTI") "u2" "r3"])
        (Candidate.id w) = true.
Proof.
  apply winner_isLeading.
  - discriminate.
  - apply votesNameCandidates_check. reflexivity.
  - intros v [<-|[<-|[]]]; split; reflexivity.
Defined.

Lemma sum_no_votes rid keys :
  ¬ In rid keys ->
  fold_right Z.add 0 (List.map (fun k => if String.eqb rid k then 1 else 0) keys) = 0.
Proof.
  induction keys as [|k keys IH]; intros Hn; simpl; [reflexivity|].
  destruct (String.eqb_spec rid k) as [->|_]; [exfalso; apply Hn; now left|].
  rewrite IH; [reflexivity|]. intros H. apply Hn. now right.
Qed.

(** A vote for a listed id counts on one card. *)
Lemma sum_one_vote rid keys :
  List.NoDup keys -> In rid keys ->
  fold_right Z.add 0 (List.map (fun k => if String.eqb rid k then 1 else 0) keys) = 1.
Proof.
  induction keys as [|k keys IH]; intros Hnd Hin; [destruct Hin|].
  inversion Hnd as [|? ? Hk Hnd']; subst. simpl.
  destruct (String.eqb_spec rid k) as [->|Hne].
  - now rewrite sum_no_votes.
  - destruct Hin as [E|Hin]; [congruence|]. now rewrite IH.
Qed.

Lemma sum_votesFor keys votes :
  List.NoDup keys ->
  (∀ v, In v votes -> In (Vote.restaurantId v) keys) ->
  fold_right Z.add 0 (List.map (fun k => votesFor k votes) keys)
  = Z.of_nat (length votes).
Proof.
  intros Hnd. induction votes as [|v votes IH]; intros Hin.
  - clear Hnd Hin. induction keys as [|k keys IHk]; simpl; [reflexivity|].
    now rewrite IHk, votesFor_nil.
  - assert (Hsplit : ∀ l,
              fold_right Z.add 0 (List.map (fun k => votesFor k (v :: votes)) l)
              = fold_right Z.add 0
                  (List.map (fun k => if String.eqb (Vote.restaurantId v) k
                                      then 1 else 0) l)
                + fold_right Z.add 0 (List.map (fun k => votesFor k votes) l)).
    { induction l as [|k l IHl]; simpl; [reflexivity|].
      rewrite IHl, votesFor_cons. lia. }
    rewrite Hsplit, IH by (intros v' Hv'; apply Hin; now right).
    rewrite sum_one_vote by (auto; apply Hin; now left).
    cbn [length]. lia.
Qed.

(** X6. When the candidates have distinct ids, none the name of a member
    inherited from [Object.prototype], and every vote names one of them,
    the counts on the cards are numbers and add up to [votes.length], the
    number of votes the header shows: no vote is lost and none counts on
    two cards. *)
Theorem cardCounts_total candidates votes :
  List.NoDup (List.map Candidate.id candidates) ->
  (∀ c, In c candidates -> JS.inherited (Candidate.id c) = false) ->
  votesNameCandidates candidates votes ->
  cardCounts candidates votes
  = List.map (fun c => Num (votesFor (Candidate.id c) votes)) candidates
  ∧ fold_right Z.add 0
      (List.map (fun c => votesFor (Candidate.id c) votes) candidates)
    = Z.of_nat (length votes).
Proof.
  intros Hnd Hplain Hnamed. split.
  - unfold cardCounts, voteCounts. apply List.map_ext_in.
    intros c Hc. now apply shownCount_tally, Hplain.
  - rewrite <- (List.map_map Candidate.id (fun k => votesFor k votes)).
    apply sum_votesFor; [assumption|].
    intros v Hv. destruct (Hnamed v Hv) as (c & Hc & <-). now apply in_map.
Qed.

Lemma cardCounts_total_witness :
  cardCounts MOCK_RESTAURANTS
    [Vote.mk (Some "41IOTI") "u1" "r2"; Vote.mk (Some "41IOTI") "u2" "r3";
     Vote.mk (Some "41IOTI") "u1" "r3"]
  = [Num 0; Num 1; Num 2; Num 0; Num 0]
  ∧ fold_right Z.add 0
      (List.map (fun c => votesFor (Candidate.id c)
                            [Vote.mk (Some "41IOTI") "u1" "r2";
                             Vote.mk (Some "41IOTI") "u2" "r3";
                             Vote.mk (Some "41IOTI") "u1" "r3"])
         MOCK_RESTAURANTS)
    = 3.
Proof.
  destruct (cardCounts_total MOCK_RESTAURANTS
              [Vote.mk (Some "41IOTI") "u1" "r2"; Vote.mk (Some "41IOTI") "u2" "r3";
               Vote.mk (Some "41IOTI") "u1" "r3"])
    as [Hcards Hsum].
  - repeat (constructor; [simpl; intuition discriminate|]). constructor.
  - intros c Hc. simpl in Hc.
    repeat (destruct Hc as [<-|Hc]; [reflexivity|]). destruct Hc.
  - apply votesNameCandidates_check. reflexivity.
  - split; [rewrite Hcards; reflexivity | exact Hsum].
Defined.

(** X7. The Voted overlay and the toggle agree: a tap on a card that shows
    it takes the [deleteDoc] branch, a tap on a card that does not takes
    the [setDoc] branch. *)
Theorem voted_then_removed s db rid r :
  onVote rid s db = Ok r ->
  voted (App.user s) (App.votes s) rid = true <-> fst (fst r) = removed.
Proof.
  unfold onVote, voted, myVotes, existing.
  destruct (App.user s) as [uid|]; [|discriminate].
  destruct (List.find _ (App.votes s)) as [v|] eqn:Hf; intros [= <-]; simpl.
  - split; [reflexivity|]. intros _.
    apply List.find_some in Hf as [Hin He]. apply andb_true_iff in He as [Eu Er].
    apply existsb_exists. exists (Vote.restaurantId v). split.
    + apply in_map, filter_In. auto.
    + rewrite String.eqb_sym. exact Er.
  - split; [|discriminate]. intros H. exfalso.
    apply existsb_exists in H as [x [Hx He]].
    apply in_map_iff in Hx as [v [<- Hv]]. apply filter_In in Hv as [Hin Eu].
    apply (List.find_none _ _ Hf) in Hin.
    rewrite Eu, String.eqb_sym, He in Hin. discriminate.
Qed.

Lemma voted_then_removed_witness :
  ∃ r,
    onVote "r3" (sync demo_voted (client "b" (Some "41IOTI"))) demo_voted = Ok r
    ∧ fst (fst r) = removed.
Proof.
  exists (removed, sync demo_voted (client "b" (Some "41IOTI")), demo_voting).
  assert (E : onVote "r3" (sync demo_voted (client "b" (Some "41IOTI"))) demo_voted
              = Ok (removed, sync demo_voted (client "b" (Some "41IOTI")), demo_voting))
    by (vm_compute; reflexivity).
  split; [exact E|].
  apply (proj1 (voted_then_removed _ _ _ _ E)). vm_compute. reflexivity.
Defined.

(** ** One record per key *)

Lemma keyed_values_NoDup {A : Type} (key : A -> string) (m : gmap string A) :
  (∀ k x, m !! k = Some x -> k = key x) ->
  NoDup (map_to_list m).*2.
Proof.
  intros Hkey. apply NoDup_fmap_2_strong; [|apply NoDup_map_to_list].
  intros [k x] [k' x'] Hx Hx' E. simpl in E. subst x'.
  apply elem_of_map_to_list in Hx, Hx'.
  now rewrite (Hkey _ _ Hx), (Hkey _ _ Hx').
Qed.

(** X8. In every reachable store the votes of a session hold each vote
    once, and no two of them are by the same user for the same
    restaurant: a user has at most one vote per candidate. *)
Theorem one_vote_per_user_and_candidate db sid :
  reachable db ->
  List.NoDup (votesOf db sid)
  ∧ ∀ v v', In v (votesOf db sid) -> In v' (votesOf db sid) ->
            Vote.userId v = Vote.userId v' ->
            Vote.restaurantId v = Vote.restaurantId v' -> v = v'.
Proof.
  intros Hr. destruct (reachable_wellKeyed db Hr) as [_ Hkeys]. split.
  - apply NoDup_ListNoDup. unfold votesOf. apply NoDup_filter.
    exact (keyed_values_NoDup _ _ Hkeys).
  - intros v v' Hv Hv' Eu Er.
    apply votesOf_In in Hv as [k [Hk Hs]], Hv' as [k' [Hk' Hs']].
    rewrite (Hkeys _ _ Hk) in Hk. rewrite (Hkeys _ _ Hk') in Hk'.
    rewrite Hs, Eu, Er in Hk. rewrite Hs' in Hk'. congruence.
Qed.

Lemma one_vote_per_user_and_candidate_witness :
  List.NoDup (votesOf demo_voted "41IOTI").
Proof.
  apply (one_vote_per_user_and_candidate demo_voted "41IOTI").
  scripted.
Defined.

(** X9. In every reachable store a session lists at most one participant
    record per user. *)
Theorem one_participant_per_user db sid :
  reachable db ->
  List.NoDup (participantsOf db sid)
  ∧ ∀ p p', In p (participantsOf db sid) -> In p' (participantsOf db sid) ->
            Participant.userId p = Participant.userId p' -> p = p'.
Proof.
  intros Hr. destruct (reachable_wellKeyed db Hr) as [Hkeys _]. split.
  - apply NoDup_ListNoDup. unfold participantsOf. apply NoDup_filter.
    exact (keyed_values_NoDup _ _ Hkeys).
  - intros p p' Hp Hp' Eu.
    apply participantsOf_In in Hp as [k [Hk Hs]], Hp' as [k' [Hk' Hs']].
    rewrite (Hkeys _ _ Hk) in Hk. rewrite (Hkeys _ _ Hk') in Hk'.
    rewrite Hs, Eu in Hk. rewrite Hs' in Hk'. congruence.
Qed.

Lemma one_participant_per_user_witness :
  List.NoDup (participantsOf demo_lobby "41IOTI").
Proof.
  apply (one_participant_per_user demo_lobby "41IOTI").
  apply demo_lobby_reachable.
Defined.

(** ** A toggle and the counts *)

Lemma votesFor_filter_cons rid sid v l :
  votesFor rid (filter (fun v => Vote.sessionId v = Some sid) (v :: l))
  = (if decide (Vote.sessionId v = Some sid)
     then (if String.eqb (Vote.restaurantId v) rid then 1 else 0)
     else 0)
    + votesFor rid (filter (fun v => Vote.sessionId v = Some sid) l).
Proof.
  rewrite filter_cons. destruct (decide _); [apply votesFor_cons | lia].
Qed.

(** X10. In a reachable store, a toggle by a client that has seen the
    store changes the number of votes of its restaurant by one, up on the
    [setDoc] branch and down on the [deleteDoc] branch, and the number of
    votes of no other restaurant, provided the document id of the vote is
    not taken by a vote under another key. *)
Theorem onVote_counts db s uid sid rid r :
  reachable db -> synced s db ->
  App.active s = Some (uid, sid) ->
  (∀ v0, Db.votes db !! voteDocId sid uid rid = Some v0 ->
         v0 = Vote.mk (Some sid) uid rid) ->
  onVote rid s db = Ok r ->
  votesFor rid (votesOf (snd r) sid)
  = votesFor rid (votesOf db sid)
    + match fst (fst r) with added => 1 | removed => -1 end
  ∧ ∀ k, k ≠ rid -> votesFor k (votesOf (snd r) sid) = votesFor k (votesOf db sid).
Proof.
  intros Hr Hs Hact Hown Hrun.
  destruct (reachable_wellKeyed db Hr) as [_ Hkeys].
  destruct (active_inv _ _ _ Hact) as (Hu & Hsid & _).
  assert (Hperm : App.votes s ≡ₚ votesOf db sid)
    by (unfold synced in Hs; rewrite Hact in Hs; tauto).
  unfold onVote in Hrun. rewrite Hu, Hsid in Hrun. simpl in Hrun.
  destruct (existing uid rid s) as [v0|] eqn:Hex; injection Hrun as <-; simpl.
  - (* deleteDoc *)
    unfold existing in Hex. apply List.find_some in Hex as [Hin He].
    apply andb_true_iff in He as [Eu Er]. apply String.eqb_eq in Eu, Er.
    apply (Permutation_in _ Hperm), votesOf_In in Hin as [k [Hk Hsv]].
    pose proof (Hkeys _ _ Hk) as Ek. rewrite Hsv, Eu, Er in Ek. simpl in Ek. subst k.
    assert (Hall : ∀ k, votesFor k (votesOf db sid)
                        = (if String.eqb rid k then 1 else 0)
                          + votesFor k (votesOf (Db.mk (Db.sessions db) (Db.participants db)
                                                   (delete (voteDocId sid uid rid) (Db.votes db))) sid)).
    { intros k. unfold votesOf at 1.
      rewrite <- (votesFor_perm k _ _
                    (filter_Permutation _ _ _
                       (fmap_Permutation snd _ _ (map_to_list_delete _ _ _ Hk)))).
      rewrite fmap_cons, votesFor_filter_cons. simpl.
      destruct (decide (Vote.sessionId v0 = Some sid)); [|contradiction].
      now rewrite Er. }
    split.
    + rewrite (Hall rid), String.eqb_refl. lia.
    + intros k Hk'. rewrite (Hall k).
      destruct (String.eqb_spec rid k); [congruence | lia].
  - (* setDoc *)
    assert (Hfree : Db.votes db !! voteDocId sid uid rid = None).
    { destruct (Db.votes db !! voteDocId sid uid rid) as [v0|] eqn:Hk; [|reflexivity].
      exfalso. rewrite (Hown v0 eq_refl) in Hk.
      assert (Hin : In (Vote.mk (Some sid) uid rid) (App.votes s)).
      { apply (Permutation_in _ (Permutation_sym Hperm)), votesOf_In. eauto. }
      unfold existing in Hex. apply (List.find_none _ _ Hex) in Hin. simpl in Hin.
      rewrite !String.eqb_refl in Hin. discriminate. }
    assert (Hall : ∀ k, votesFor k (votesOf (Db.mk (Db.sessions db) (Db.participants db)
                                              (<[voteDocId sid uid rid := Vote.mk (Some sid) uid rid]>
                                                 (Db.votes db))) sid)
                        = (if String.eqb rid k then 1 else 0) + votesFor k (votesOf db sid)).
    { intros k. unfold votesOf at 1. simpl.
      rewrite (votesFor_perm k _ _
                 (filter_Permutation _ _ _
                    (fmap_Permutation snd _ _
                       (map_to_list_insert _ _ (Vote.mk (Some sid) uid rid) Hfree)))).
      rewrite fmap_cons, votesFor_filter_cons. simpl.
      destruct (decide (Some sid = Some sid)); [reflexivity | contradiction]. }
    split.
    + rewrite (Hall rid), String.eqb_refl. lia.
    + intros k Hk'. rewrite (Hall k).
      destruct (String.eqb_spec rid k); [congruence | lia].
Qed.

Lemma onVote_counts_witness :
  votesFor "r3" (votesOf demo_voted "41IOTI")
  = votesFor "r3" (votesOf demo_voting "41IOTI") + 1.
Proof.
  destruct (onVote_counts demo_voting (sync demo_voting (client "b" (Some "41IOTI")))
              "b" "41IOTI" "r3"
              (added, sync demo_voting (client "b" (Some "41IOTI")), demo_voted))
    as [Hcount _].
  - apply demo_voting_reachable.
  - apply synced_sync.
  - reflexivity.
  - intros v0 Hv0. vm_compute in Hv0. discriminate.
  - vm_compute. reflexivity.
  - exact Hcount.
Defined.

(** ** Guards *)

(** X11. Without a signed-in user no handler writes: the five named
    handlers return at their guard, leaving state and store as they are,
    and [onVote] throws on [user.uid]. *)
Theorem signed_out_writes_nothing a s db :
  App.user s = None ->
  match a with
  | OnVote _ => run a s db = Throw TypeError
  | _ => run a s db = Ok (s, db)
  end.
Proof.
  intros Hu.
  assert (Hact : App.active s = None) by (unfold App.active; now rewrite Hu).
  destruct a; simpl;
    unfold createSession, joinSession, submitPreference, startVoting, endVoting, onVote;
    rewrite ?Hu, ?Hact; try reflexivity.
Qed.

Lemma signed_out_writes_nothing_witness :
  run EndVoting (App.mk None View.voting (Some "41IOTI") None [] [] "" false false)
      demo_voted
  = Ok (App.mk None View.voting (Some "41IOTI") None [] [] "" false false, demo_voted).
Proof.
  apply (signed_out_writes_nothing EndVoting
           (App.mk None View.voting (Some "41IOTI") None [] [] "" false false)
           demo_voted).
  reflexivity.
Defined.

(** X12. After [resetApp] the client has left its session: it holds no
    snapshot, neither button is offered, and [submitPreference],
    [startVoting] and [endVoting] return at their guard without a
    write. *)
Theorem resetApp_leaves_session s db :
  synced (resetApp s) db
  ∧ offersStartVoting (resetApp s) = false
  ∧ offersEndVoting (resetApp s) = false
  ∧ (∀ prefText, submitPreference prefText (resetApp s) db = Ok (resetApp s, db))
  ∧ (∀ fetched shuffled,
       startVoting fetched shuffled (resetApp s) db = Ok (resetApp s, db))
  ∧ endVoting (resetApp s) db = Ok (resetApp s, db).
Proof.
  assert (Hact : App.active (resetApp s) = None)
    by (unfold App.active, resetApp; simpl; now destruct (App.user s)).
  unfold synced, submitPreference, startVoting, endVoting.
  rewrite Hact. conjunctions; auto.
Qed.

(** X13. [submitPreference] by a user with no participant record in the
    session does not fail: it creates the record, under the name "User"
    and with [isHost = false]. *)
Theorem submitPreference_without_record db s uid sid prefText :
  synced s db ->
  App.active s = Some (uid, sid) ->
  (∀ k p, Db.participants db !! k = Some p ->
          Participant.sessionId p = sid -> Participant.userId p ≠ uid) ->
  submitPreference prefText s db
  = Ok (s, Db.mk (Db.sessions db)
                 (<[participantDocId sid uid
                    := Participant.mk sid uid "User" prefText false]>
                    (Db.participants db))
                 (Db.votes db)).
Proof.
  intros Hs Hact Hnone.
  assert (Hcur : currentPart uid s = None).
  { unfold currentPart.
    destruct (List.find _ (App.participants s)) as [p|] eqn:Hf; [|reflexivity].
    exfalso. apply List.find_some in Hf as [Hin He]. apply String.eqb_eq in He.
    unfold synced in Hs. rewrite Hact in Hs. destruct Hs as (_ & Hperm & _).
    apply (Permutation_in _ Hperm), participantsOf_In in Hin as [k [Hk Hsid]].
    exact (Hnone _ _ Hk Hsid He). }
  unfold submitPreference. now rewrite Hact, Hcur.
Qed.

Lemma submitPreference_without_record_witness :
  submitPreference "ramen" (sync demo_lobby (client "z" (Some "41IOTI"))) demo_lobby
  = Ok (sync demo_lobby (client "z" (Some "41IOTI")),
        Db.mk (Db.sessions demo_lobby)
              (<["41IOTI_z" := Participant.mk "41IOTI" "z" "User" "ramen" false]>
                 (Db.participants demo_lobby))
              (Db.votes demo_lobby)).
Proof.
  apply (submitPreference_without_record demo_lobby
           (sync demo_lobby (client "z" (Some "41IOTI"))) "z" "41IOTI" "ramen").
  - apply synced_sync.
  - reflexivity.
  - intros k p Hk Hsid Hu.
    assert (Hin : In p (participantsOf demo_lobby "41IOTI"))
      by (apply (proj2 (participantsOf_In _ _ _)); exists k; split; assumption).
    clear Hk.
    assert (E : participantsOf demo_lobby "41IOTI"
                = [Participant.mk "41IOTI" "b" "Bo" "tacos" false;
                   Participant.mk "41IOTI" "h" "Alex" "" true])
      by (vm_compute; reflexivity).
    rewrite E in Hin. destruct Hin as [<-|[<-|[]]]; discriminate Hu.
Defined.

(** ** Starting and ending the vote *)

(** X14. The candidates [startVoting] stores, a search result being one
    with every field of its restaurants defined: a non-empty result as it
    is, with [usingMock] cleared; without a result, or with an empty one,
    the five mock restaurants in the shuffled order, with [usingMock] set.
    The session is then in status [voting], its host, location and winner
    as before, and [isStarting] is cleared. *)
Theorem startVoting_candidates fetched shuffled s db s' db' uid sid :
  shuffled ≡ₚ MOCK_RESTAURANTS ->
  App.active s = Some (uid, sid) ->
  startVoting fetched shuffled s db = Ok (s', db') ->
  ∃ d d',
    Db.sessions db !! sid = Some d
    ∧ Db.sessions db' !! sid = Some d'
    ∧ Session.status d' = voting
    ∧ Session.hostId d' = Session.hostId d
    ∧ Session.location d' = Session.location d
    ∧ Session.winner d' = Session.winner d
    ∧ App.isStarting s' = false
    ∧ (∀ c cs, fetched = Some (c :: cs) ->
               Session.candidates d' = c :: cs ∧ App.usingMock s' = false)
    ∧ (fetched = None ∨ fetched = Some [] ->
       Session.candidates d' = shuffled
       ∧ Session.candidates d' ≡ₚ MOCK_RESTAURANTS
       ∧ App.usingMock s' = true).
Proof.
  intros Hp Hact Hrun. unfold startVoting, updateSession in Hrun.
  rewrite Hact in Hrun.
  destruct (App.sessionData s); [|discriminate].
  destruct (Db.sessions db !! sid) as [d|]; [|discriminate].
  simpl in Hrun. injection Hrun as <- <-. simpl.
  rewrite lookup_insert_eq. eexists _, _.
  split; [reflexivity|]. split; [reflexivity|]. simpl.
  conjunctions; auto.
  - intros c cs ->. auto.
  - intros Hnone.
    assert (Hall : firstn 5 shuffled = shuffled)
      by (apply firstn_all2; rewrite (Permutation_length Hp); simpl; lia).
    destruct Hnone as [-> | ->]; simpl; rewrite Hall; auto.
Qed.

Lemma startVoting_candidates_witness :
  ∃ d',
    Db.sessions search_voting !! "41IOTI" = Some d'
    ∧ Session.status d' = voting
    ∧ Session.candidates d' = [found "c" "Cafe"; found "b_c" "Bistro"].
Proof.
  destruct (startVoting (Some [found "c" "Cafe"; found "b_c" "Bistro"]) MOCK_RESTAURANTS
              (sync demo_lobby (client "h" (Some "41IOTI"))) demo_lobby)
    as [[s' db']|] eqn:Hrun; [|vm_compute in Hrun; discriminate].
  destruct (startVoting_candidates _ MOCK_RESTAURANTS
              (sync demo_lobby (client "h" (Some "41IOTI"))) demo_lobby
              s' db' "h" "41IOTI" (Permutation_refl _) eq_refl Hrun)
    as (d & d' & _ & Hd' & Hst & _ & _ & _ & _ & Hfound & _).
  assert (Edb : search_voting = db').
  { unfold search_voting, after.
    change (run (StartVoting ?f ?sh) ?c ?d) with (startVoting f sh c d).
    now rewrite Hrun. }
  exists d'. rewrite Edb. conjunctions; auto.
  now apply (Hfound (found "c" "Cafe") [found "b_c" "Bistro"]).
Defined.

(** X15. For a code under which there is no session document,
    [startVoting] throws and [endVoting] returns without a write, so
    neither brings the session into being; [joinSession] does not look:
    it stores the participant record and leaves the session missing. *)
Theorem no_session_document db s uid sid :
  synced s db ->
  App.active s = Some (uid, sid) ->
  Db.sessions db !! sid = None ->
  (∀ fetched shuffled, startVoting fetched shuffled s db = Throw TypeError)
  ∧ endVoting s db = Ok (s, db)
  ∧ ∀ participantName,
      ∃ s' db',
        joinSession participantName sid s db = Ok (s', db')
        ∧ Db.sessions db' !! sid = None
        ∧ Db.participants db' !! participantDocId sid uid
          = Some (Participant.mk sid uid participantName "" false).
Proof.
  intros Hs Hact Hnone.
  assert (Hdata : App.sessionData s = None).
  { unfold synced in Hs. rewrite Hact, Hnone in Hs. tauto. }
  destruct (active_inv _ _ _ Hact) as (Hu & _ & _).
  unfold startVoting, endVoting, joinSession. rewrite Hact, Hdata, Hu.
  conjunctions; auto.
  intros participantName. eexists _, _. split; [reflexivity|]. simpl.
  split; [assumption | apply lookup_insert_eq].
Qed.

Lemma no_session_document_witness :
  endVoting (sync demo_lobby (client "b" (Some "NOCODE"))) demo_lobby
  = Ok (sync demo_lobby (client "b" (Some "NOCODE")), demo_lobby).
Proof.
  apply (no_session_document demo_lobby
           (sync demo_lobby (client "b" (Some "NOCODE"))) "b" "NOCODE").
  - apply synced_sync.
  - reflexivity.
  - vm_compute. reflexivity.
Defined.

(** X16. [endVoting] writes only the status and the winner of its own
    session, and a second run on the same snapshot writes the same again:
    the store is then unchanged. *)
Theorem endVoting_again s db s' db' :
  endVoting s db = Ok (s', db') ->
  s' = s
  ∧ Db.participants db' = Db.participants db
  ∧ Db.votes db' = Db.votes db
  ∧ (∀ k, Some k ≠ App.sessionId s -> Db.sessions db' !! k = Db.sessions db !! k)
  ∧ (∀ k d d', Db.sessions db !! k = Some d -> Db.sessions db' !! k = Some d' ->
               Session.hostId d' = Session.hostId d
               ∧ Session.location d' = Session.location d
               ∧ Session.candidates d' = Session.candidates d)
  ∧ endVoting s db' = Ok (s, db').
Proof.
  intros Hrun. pose proof Hrun as Hrun0.
  unfold endVoting, updateSession in Hrun.
  destruct (App.active s) as [[uid sid]|] eqn:Hact.
  2: { injection Hrun as <- <-. conjunctions; auto.
       intros k d d' Hd Hd'. rewrite Hd in Hd'. now injection Hd' as <-. }
  destruct (App.sessionData s) as [[id data]|] eqn:Hdata.
  2: { injection Hrun as <- <-. conjunctions; auto.
       intros k d d' Hd Hd'. rewrite Hd in Hd'. now injection Hd' as <-. }
  destruct (active_inv _ _ _ Hact) as (_ & Hsid & _).
  destruct (resolve (Session.candidates data) (App.votes s)) as [[w|]|] eqn:Hres;
    simpl in Hrun; try discriminate.
  destruct (Db.sessions db !! sid) as [d0|] eqn:Hd0; simpl in Hrun; [|discriminate].
  injection Hrun as <- <-. simpl. conjunctions; auto.
  - intros k Hk. apply lookup_insert_ne. congruence.
  - intros k d d' Hd Hd'. destruct (decide (sid = k)) as [->|Hne].
    + rewrite lookup_insert_eq in Hd'. injection Hd' as <-.
      rewrite Hd0 in Hd. injection Hd as <-. auto.
    + rewrite lookup_insert_ne in Hd' by assumption.
      rewrite Hd in Hd'. now injection Hd' as <-.
  - unfold endVoting, updateSession. rewrite Hact, Hdata, Hres. simpl.
    rewrite lookup_insert_eq. simpl. now rewrite insert_insert_eq.
Qed.

Lemma endVoting_again_witness :
  endVoting (sync demo_voted (client "h" (Some "41IOTI"))) demo_finished
  = Ok (sync demo_voted (client "h" (Some "41IOTI")), demo_finished).
Proof.
  apply (endVoting_again (sync demo_voted (client "h" (Some "41IOTI"))) demo_voted
           (sync demo_voted (client "h" (Some "41IOTI"))) demo_finished).
  vm_compute. reflexivity.
Defined.

(** X17. On a session without candidates [endVoting] stores no winner,
    whatever the votes: it throws, on [candidates[0].id] or on the
    [undefined] winner. *)
Theorem endVoting_without_candidates s db uid sid id data :
  App.active s = Some (uid, sid) ->
  App.sessionData s = Some (id, data) ->
  Session.candidates data = [] ->
  endVoting s db = Throw TypeError ∨ endVoting s db = Throw InvalidArgument.
Proof.
  intros Hact Hdata Hnil. unfold endVoting. rewrite Hact, Hdata, Hnil.
  unfold resolve.
  destruct (winnerId [] (App.votes s)) as [wid|e] eqn:Hw; simpl.
  - now right.
  - left. unfold winnerId, first_id in Hw.
    destruct (App.votes s); [now injection Hw as <-|].
    destruct (fst _) as [rid|]; [destruct (JS.falsy rid)|];
      try discriminate; now injection Hw as <-.
Qed.

Lemma endVoting_without_candidates_witness :
  endVoting (sync demo_lobby (client "h" (Some "41IOTI"))) demo_lobby
  = Throw TypeError
  ∨ endVoting (sync demo_lobby (client "h" (Some "41IOTI"))) demo_lobby
    = Throw InvalidArgument.
Proof.
  apply (endVoting_without_candidates
           (sync demo_lobby (client "h" (Some "41IOTI"))) demo_lobby "h" "41IOTI"
           "41IOTI" (Session.mk "h" "Atlanta, GA" open [] None)).
  - reflexivity.
  - vm_compute. reflexivity.
  - reflexivity.
Defined.

(** ** The Data Sync effect and the start button *)

(** X18. The Data Sync effect brings a subscribed client in line with the
    store (when the session document exists, or the client held no
    session data), and running it again on an unchanged store changes
    nothing. *)
Theorem sync_brings_in_sync db s uid sid :
  App.active s = Some (uid, sid) ->
  is_Some (Db.sessions db !! sid) ∨ App.sessionData s = None ->
  synced (sync db s) db ∧ sync db (sync db s) = sync db s.
Proof.
  intros Hact Hdoc. unfold sync at 1 3 4. rewrite Hact.
  set (s1 := App.mk _ _ _ _ _ _ _ _ _).
  assert (Hact1 : App.active s1 = Some (uid, sid)) by exact Hact.
  split.
  - unfold synced. rewrite Hact1. subst s1. simpl.
    destruct (Db.sessions db !! sid) as [d|] eqn:Hd; simpl.
    + conjunctions; auto. now destruct (Session.status d).
    + destruct Hdoc as [[d Hd']|Hdata]; [discriminate|]. now rewrite Hdata.
  - unfold sync. rewrite Hact1. subst s1. simpl.
    destruct (Db.sessions db !! sid) as [d|]; simpl; [|reflexivity].
    now destruct (Session.status d).
Qed.

Lemma sync_brings_in_sync_witness :
  synced (sync demo_voting (client "b" (Some "41IOTI"))) demo_voting
  ∧ sync demo_voting (sync demo_voting (client "b" (Some "41IOTI")))
    = sync demo_voting (client "b" (Some "41IOTI")).
Proof.
  apply (sync_brings_in_sync demo_voting (client "b" (Some "41IOTI")) "b" "41IOTI").
  - reflexivity.
  - right. reflexivity.
Defined.



(** ** Session codes, again *)

(** X20. [createSession] fails exactly when [Math.random()] returns 0,
    for which the code is empty; for every other number it stores an open
    session without candidates under the code, hosted by the caller, and
    the caller's participant record with [isHost] set. *)
Theorem createSession_outcome random hostName location s db uid :
  in_unit_interval random ->
  App.user s = Some uid ->
  (mant random = 0%N ->
   createSession random hostName location s db = Throw InvalidArgument)
  ∧ (mant random ≠ 0%N ->
     ∃ s' db',
       createSession random hostName location s db = Ok (s', db')
       ∧ App.sessionId s' = Some (generateSessionId random)
       ∧ Db.sessions db' !! generateSessionId random
         = Some (Session.mk uid location open [] None)
       ∧ Db.participants db' !! participantDocId (generateSessionId random) uid
         = Some (Participant.mk (generateSessionId random) uid hostName "" true)
       ∧ Db.votes db' = Db.votes db).
Proof.
  intros Hunit Hu. unfold createSession. rewrite Hu. split.
  - intros Hz. unfold generateSessionId, toString36. rewrite Hz. reflexivity.
  - intros Hnz.
    assert (Hcode : JS.falsy (generateSessionId random) = false).
    { unfold generateSessionId, toString36, JS.substring.
      destruct (N.eqb_spec (mant random) 0) as [E|_]; [contradiction|].
      change ("0." +:+ ?x) with (String "0" (String "." x)).
      change (String.substring 2 (8 - 2) (String "0" (String "." ?x)))
        with (String.substring 0 6 x).
      destruct (N.to_nat (expo random)) as [|fuel] eqn:Hfuel.
      - exfalso. unfold in_unit_interval in Hunit.
        assert (E : expo random = 0%N) by lia. rewrite E in Hunit.
        change (2 ^ 0)%N with 1%N in Hunit. lia.
      - simpl fraction36.
        destruct (N.eqb_spec (mant random) 0) as [E|_]; [contradiction|].
        reflexivity. }
    rewrite Hcode. eexists _, _. split; [reflexivity|]. simpl.
    conjunctions; auto; apply lookup_insert_eq.
Qed.

Lemma createSession_outcome_witness :
  createSession {| mant := 0; expo := 1 |} "Alex" "Atlanta, GA"
    (client "h" None) Db.empty
  = Throw InvalidArgument.
Proof.
  apply (createSession_outcome {| mant := 0; expo := 1 |} "Alex" "Atlanta, GA"
           (client "h" None) Db.empty "h"); reflexivity.
Defined.

Lemma generateSessionId_shape_witness :
  (String.length (generateSessionId demo_random) <= 6)%nat
  ∧ allChars upperAlnum (generateSessionId demo_random) = true.
Proof.
  apply (generateSessionId_shape demo_random). vm_compute. reflexivity.
Defined.

(** ** What a handler can touch *)

(** X23. Each handler writes to its own collections only: sessions are
    written by [createSession], [startVoting] and [endVoting],
    participants by [createSession], [joinSession] and [submitPreference],
    votes by [onVote]. No handler deletes a session or a participant
    record. *)
Theorem handler_footprint a s db s' db' :
  run a s db = Ok (s', db') ->
  match a with
  | CreateSession _ _ _ => Db.votes db' = Db.votes db
  | JoinSession _ _ | SubmitPreference _ =>
      Db.sessions db' = Db.sessions db ∧ Db.votes db' = Db.votes db
  | StartVoting _ _ | EndVoting =>
      Db.participants db' = Db.participants db ∧ Db.votes db' = Db.votes db
  | OnVote _ =>
      Db.sessions db' = Db.sessions db ∧ Db.participants db' = Db.participants db
  end
  ∧ (∀ k, is_Some (Db.sessions db !! k) -> is_Some (Db.sessions db' !! k))
  ∧ (∀ k, is_Some (Db.participants db !! k) -> is_Some (Db.participants db' !! k)).
Proof.
  intros Hrun.
  assert (Hkeep : ∀ (A : Type) (m : gmap string A) k0 x k,
             is_Some (m !! k) -> is_Some (<[k0 := x]> m !! k)).
  { intros A m k0 x k Hk. destruct (decide (k0 = k)) as [->|Hne].
    - rewrite lookup_insert_eq. eauto.
    - now rewrite lookup_insert_ne. }
  run_cases Hrun; simpl; conjunctions; auto.
Qed.

Lemma handler_footprint_witness :
  Db.sessions demo_voted = Db.sessions demo_voting
  ∧ Db.participants demo_voted = Db.participants demo_voting.
Proof.
  destruct (run (OnVote "r3") (sync demo_voting (client "b" (Some "41IOTI"))) demo_voting)
    as [[s' db']|] eqn:Hrun; [|vm_compute in Hrun; discriminate].
  destruct (handler_footprint (OnVote "r3") _ demo_voting s' db' Hrun) as [Hframe _].
  assert (E : demo_voted = db') by (unfold demo_voted, after; now rewrite Hrun).
  now rewrite E.
Defined.

(** X24. On an existing session, [hostId] and [location] are never
    changed, the candidates only by [startVoting] and the winner only by
    [endVoting], unless [createSession] draws the code of the session and
    replaces it. *)
Theorem session_fields_kept a s db s' db' sid d d' :
  run a s db = Ok (s', db') ->
  Db.sessions db !! sid = Some d ->
  Db.sessions db' !! sid = Some d' ->
  (∀ random hostName location,
      a = CreateSession random hostName location -> generateSessionId random ≠ sid) ->
  Session.hostId d' = Session.hostId d
  ∧ Session.location d' = Session.location d
  ∧ ((∀ fetched shuffled, a ≠ StartVoting fetched shuffled) ->
     Session.candidates d' = Session.candidates d)
  ∧ (a ≠ EndVoting -> Session.winner d' = Session.winner d).
Proof.
  intros Hrun Hd Hd' Hfresh.
  assert (Hsame : Db.sessions db' = Db.sessions db ->
            Session.hostId d' = Session.hostId d
            ∧ Session.location d' = Session.location d
            ∧ ((∀ fetched shuffled, a ≠ StartVoting fetched shuffled) ->
               Session.candidates d' = Session.candidates d)
            ∧ (a ≠ EndVoting -> Session.winner d' = Session.winner d)).
  { intros E. rewrite E, Hd in Hd'. injection Hd' as <-. auto. }
  run_cases Hrun; simpl in *; auto.
  - rewrite lookup_insert_ne in Hd' by (eapply Hfresh; reflexivity).
    rewrite Hd in Hd'. injection Hd' as <-. auto.
  - match goal with
    | Hl : Db.sessions db !! ?i = Some ?d0 |- _ =>
        destruct (decide (i = sid)) as [->|Hne];
        [ rewrite lookup_insert_eq in Hd'; injection Hd' as <-;
          rewrite Hl in Hd; injection Hd as <-; simpl;
          conjunctions; auto; intros Hno; exfalso; eapply Hno; reflexivity
        | rewrite lookup_insert_ne in Hd' by assumption;
          rewrite Hd in Hd'; injection Hd' as <-; auto ]
    end.
  - match goal with
    | Hl : Db.sessions db !! ?i = Some ?d0 |- _ =>
        destruct (decide (i = sid)) as [->|Hne];
        [ rewrite lookup_insert_eq in Hd'; injection Hd' as <-;
          rewrite Hl in Hd; injection Hd as <-; simpl;
          conjunctions; auto; intros Hno; exfalso; now apply Hno
        | rewrite lookup_insert_ne in Hd' by assumption;
          rewrite Hd in Hd'; injection Hd' as <-; auto ]
    end.
Qed.

Lemma session_fields_kept_witness :
  ∃ d d',
    Db.sessions demo_voted !! "41IOTI" = Some d
    ∧ Db.sessions demo_finished !! "41IOTI" = Some d'
    ∧ Session.hostId d' = Session.hostId d
    ∧ Session.candidates d' = Session.candidates d.
Proof.
  destruct (run EndVoting (sync demo_voted (client "h" (Some "41IOTI"))) demo_voted)
    as [[s' db']|] eqn:Hrun; [|vm_compute in Hrun; discriminate].
  assert (E : demo_finished = db') by (unfold demo_finished, after; now rewrite Hrun).
  destruct (Db.sessions demo_voted !! "41IOTI") as [d|] eqn:Hd;
    [|vm_compute in Hd; discriminate].
  destruct (Db.sessions demo_finished !! "41IOTI") as [d'|] eqn:Hd';
    [|vm_compute in Hd'; discriminate].
  exists d, d'. split; [reflexivity|]. split; [reflexivity|].
  rewrite E in Hd'.
  destruct (session_fields_kept EndVoting _ demo_voted s' db' "41IOTI" d d' Hrun Hd Hd')
    as (Hhost & _ & Hcands & _); [discriminate|].
  split; [assumption|]. apply Hcands. discriminate.
Defined.

(** X25. For a client in line with the store the buttons follow the
    phase: the start button is offered only to the host of an open
    session, the end button only to the host of a session that is not
    finished. *)
Theorem buttons_follow_phase s db :
  synced s db ->
  (offersStartVoting s = true ->
   ∃ uid sid d,
     App.active s = Some (uid, sid) ∧ Db.sessions db !! sid = Some d
     ∧ Session.hostId d = uid ∧ Session.status d = open)
  ∧ (offersEndVoting s = true ->
     ∃ uid sid d,
       App.active s = Some (uid, sid) ∧ Db.sessions db !! sid = Some d
       ∧ Session.hostId d = uid ∧ Session.status d ≠ finished).
Proof.
  intros Hs. unfold synced in Hs.
  assert (Hgen : ∀ id data u,
            App.sessionData s = Some (id, data) -> App.user s = Some u ->
            String.eqb (Session.hostId data) u = true ->
            ∃ sid, App.active s = Some (u, sid)
                   ∧ Db.sessions db !! sid = Some data
                   ∧ Session.hostId data = u
                   ∧ (Session.status data = voting -> App.view s = View.voting)
                   ∧ (Session.status data = finished -> App.view s = View.winner)).
  { intros id data u Hdata Hu He. apply String.eqb_eq in He.
    destruct (App.active s) as [[uid sid]|] eqn:Hact.
    - destruct (active_inv _ _ _ Hact) as (Hu' & _ & _).
      rewrite Hu in Hu'. injection Hu' as <-.
      destruct Hs as (Hsd & _ & _ & Hview). rewrite Hdata in Hsd.
      destruct (Db.sessions db !! sid) as [d|] eqn:Hd; simpl in *; [|discriminate].
      injection Hsd as -> ->. exists sid. conjunctions; auto.
      + intros E. now rewrite E in Hview.
      + intros E. now rewrite E in Hview.
    - destruct Hs as (Hsd & _). congruence. }
  split; intros Hoff.
  - unfold offersStartVoting in Hoff.
    destruct (App.view s) eqn:Hview; try discriminate.
    destruct (App.sessionData s) as [[id data]|] eqn:Hdata; [|discriminate].
    destruct (App.user s) as [u|] eqn:Hu; [|discriminate].
    apply andb_true_iff in Hoff as [Hoff _]. apply andb_true_iff in Hoff as [He _].
    destruct (Hgen id data u eq_refl eq_refl He) as (sid & Hact & Hd & Hh & Hv & Hf).
    exists u, sid, data. conjunctions; auto.
    destruct (Session.status data); [reflexivity | |];
      [specialize (Hv eq_refl) | specialize (Hf eq_refl)]; discriminate.
  - unfold offersEndVoting in Hoff.
    destruct (App.view s) eqn:Hview; try discriminate.
    destruct (App.sessionData s) as [[id data]|] eqn:Hdata; [|discriminate].
    destruct (App.user s) as [u|] eqn:Hu; [|discriminate].
    destruct (Hgen id data u eq_refl eq_refl Hoff) as (sid & Hact & Hd & Hh & Hv & Hf).
    exists u, sid, data. conjunctions; auto.
    intros E. specialize (Hf E). discriminate.
Qed.

Lemma buttons_follow_phase_witness :
  offersEndVoting (sync demo_voting (client "h" (Some "41IOTI"))) = true
  ∧ ∃ uid sid d,
      App.active (sync demo_voting (client "h" (Some "41IOTI"))) = Some (uid, sid)
      ∧ Db.sessions demo_voting !! sid = Some d
      ∧ Session.hostId d = uid ∧ Session.status d ≠ finished.
Proof.
  assert (E : offersEndVoting (sync demo_voting (client "h" (Some "41IOTI"))) = true)
    by (vm_compute; reflexivity).
  split; [exact E|].
  exact (proj2 (buttons_follow_phase (sync demo_voting (client "h" (Some "41IOTI")))
                  demo_voting (synced_sync _ _ _)) E).
Defined.
